(** * The form-submission handler of [app.js]

    A shallow embedding of [submitForm] and of the two timer callbacks it
    installs, together with the part of the browser they talk to: the three
    page elements, the timer table, [fetch], [alert] and [console.error].

    - JavaScript strings are sequences of UTF-16 code units; they are
      modelled as [list N], one number per code unit.
    - The [async] function is cut at its [await]s into stretches that run
      to completion; between two stretches the browser fires timers and
      settles promises, one event at a time.
    - Code that may throw lives in a state-and-exception monad; [try] and
      [catch] are a combinator of it.
    - Time is a clock in milliseconds that only the browser advances; a
      timer never fires before it is due, and may fire late.
    - The elapsed counter is a natural number: it counts seconds, and a
      JavaScript number is exact on such values. *)

From Stdlib Require Import NArith List Ascii String Lia DecimalString.
From stdpp Require Import base option list gmap.

Local Open Scope N_scope.
Set Warnings "-register-all".

(** ** Strings *)

Abbreviation jsstring := (list N).

(** An ASCII literal of the source, as code units. *)
Fixpoint lit (s : string) : jsstring :=
  match s with
  | EmptyString => []
  | String a r => N_of_ascii a :: lit r
  end.

(** The double quote (U+0022). *)
Definition dq : jsstring := [34].

Definition comma : N := 44.

(** ECMAScript [WhiteSpace] and [LineTerminator] code points, the ones
    [String.prototype.trim] strips. All of them lie in the BMP, so the test
    is exact on code units. *)
Definition is_white_space (c : N) : bool :=
  (c =? 0x9) || (c =? 0xA) || (c =? 0xB) || (c =? 0xC) || (c =? 0xD)
  || (c =? 0x20) || (c =? 0xA0) || (c =? 0x1680)
  || ((0x2000 <=? c) && (c <=? 0x200A))
  || (c =? 0x2028) || (c =? 0x2029) || (c =? 0x202F) || (c =? 0x205F)
  || (c =? 0x3000) || (c =? 0xFEFF).

Fixpoint trimStart (s : jsstring) : jsstring :=
  match s with
  | [] => []
  | c :: r => if is_white_space c then trimStart r else s
  end.

Fixpoint trimEnd (s : jsstring) : jsstring :=
  match s with
  | [] => []
  | c :: r =>
      match trimEnd r with
      | [] => if is_white_space c then [] else [c]
      | t => c :: t
      end
  end.

(** [String.prototype.trim]. *)
Definition trim (s : jsstring) : jsstring := trimEnd (trimStart s).

Fixpoint starts_with (p s : jsstring) : bool :=
  match p, s with
  | [], _ => true
  | _ :: _, [] => false
  | a :: p', b :: s' => (a =? b) && starts_with p' s'
  end.

(** [String.prototype.includes]. *)
Fixpoint includes (s p : jsstring) : bool :=
  starts_with p s ||
  match s with
  | [] => false
  | _ :: r => includes r p
  end.

(** [String.prototype.split] with a string separator and no limit. [skip]
    counts the code units of a separator occurrence still to be passed
    over. *)
Fixpoint split_from (sep : jsstring) (skip : nat) (s : jsstring)
  : list jsstring :=
  match s with
  | [] => [[]]
  | c :: r =>
      match skip with
      | S k => split_from sep k r
      | O =>
          if starts_with sep s
          then [] :: split_from sep (length sep - 1) r
          else match split_from sep 0 r with
               | p :: ps => (c :: p) :: ps
               | [] => [[c]]
               end
      end
  end.

Definition split (sep s : jsstring) : list jsstring :=
  match sep with
  | [] => map (fun c => [c]) s
  | _ :: _ => split_from sep 0 s
  end.

(** Truthiness of a string: every string but the empty one. *)
Definition truthy (s : jsstring) : bool :=
  match s with
  | [] => false
  | _ :: _ => true
  end.

(** Line 32:
    [questionsText.split(",").map(q => q.trim()).filter(q => q)]. *)
Definition questions_of (questionsText : jsstring) : list jsstring :=
  List.filter (fun q => truthy q)
    (map (fun q => trim q) (split (lit ",") questionsText)).

(** [Number::toString] on the non-negative integers the elapsed counter
    takes: the decimal digits. *)
Definition decimal (n : N) : jsstring :=
  lit (NilEmpty.string_of_uint (N.to_uint n)).

(** ** JSON values and [JSON.stringify] *)

(** A JSON value as [JSON.parse] and [Response.json] deliver it, or as an
    object literal of strings and arrays builds it. An object lists its
    properties in enumeration order. A number is kept as the text
    [Number::toString] gives for it (or [null] when it is not finite): the
    handler does nothing with a number but print it. *)
Inductive Json :=
| JNull
| JBool (b : bool)
| JNumber (repr : jsstring)
| JString (s : jsstring)
| JArray (items : list Json)
| JObject (props : list (jsstring * Json)).

Definition hex_digit (d : N) : N := if d <? 10 then 48 + d else 87 + d.

(** [UnicodeEscape]: a backslash, [u] and four lower-case hex digits. *)
Definition unicode_escape (c : N) : jsstring :=
  lit "\u" ++ [hex_digit (c / 4096 mod 16); hex_digit (c / 256 mod 16);
               hex_digit (c / 16 mod 16); hex_digit (c mod 16)].

Definition is_leading_surrogate (c : N) : bool := (0xD800 <=? c) && (c <=? 0xDBFF).
Definition is_trailing_surrogate (c : N) : bool := (0xDC00 <=? c) && (c <=? 0xDFFF).

(** The escape of one code point that is not a surrogate pair. *)
Definition quote_unit (c : N) : jsstring :=
  if c =? 0x8 then lit "\b"
  else if c =? 0x9 then lit "\t"
  else if c =? 0xA then lit "\n"
  else if c =? 0xC then lit "\f"
  else if c =? 0xD then lit "\r"
  else if c =? 0x22 then [0x5C; 0x22]
  else if c =? 0x5C then [0x5C; 0x5C]
  else if (c <? 0x20) || is_leading_surrogate c || is_trailing_surrogate c
       then unicode_escape c
  else [c].

Fixpoint quote_units (s : jsstring) : jsstring :=
  match s with
  | [] => []
  | c :: r =>
      match r with
      | d :: r' =>
          if is_leading_surrogate c && is_trailing_surrogate d
          then c :: d :: quote_units r'
          else quote_unit c ++ quote_units r
      | [] => quote_unit c
      end
  end.

(** [QuoteJSONString]. *)
Definition QuoteJSONString (s : jsstring) : jsstring :=
  dq ++ quote_units s ++ dq.

Fixpoint join (sep : jsstring) (parts : list jsstring) : jsstring :=
  match parts with
  | [] => []
  | [p] => p
  | p :: ps => p ++ sep ++ join sep ps
  end.

Definition newline : jsstring := [10].

(** The bracketed, separated layout that [SerializeJSONObject] and
    [SerializeJSONArray] share. *)
Definition bracketed (opening closing gap stepback indent : jsstring)
    (parts : list jsstring) : jsstring :=
  match parts with
  | [] => opening ++ closing
  | _ :: _ =>
      match gap with
      | [] => opening ++ join (lit ",") parts ++ closing
      | _ :: _ =>
          opening ++ newline ++ indent
          ++ join (lit "," ++ newline ++ indent) parts
          ++ newline ++ stepback ++ closing
      end
  end.

(** [SerializeJSONProperty] on a JSON value, at indentation [indent]. *)
Fixpoint SerializeJSONProperty (gap indent : jsstring) (v : Json) : jsstring :=
  match v with
  | JNull => lit "null"
  | JBool true => lit "true"
  | JBool false => lit "false"
  | JNumber repr => repr
  | JString s => QuoteJSONString s
  | JArray items =>
      bracketed (lit "[") (lit "]") gap indent (indent ++ gap)
        (map (SerializeJSONProperty gap (indent ++ gap)) items)
  | JObject props =>
      bracketed (lit "{") (lit "}") gap indent (indent ++ gap)
        (map (fun kv =>
                QuoteJSONString (fst kv) ++ lit ":"
                ++ match gap with [] => [] | _ :: _ => lit " " end
                ++ SerializeJSONProperty gap (indent ++ gap) (snd kv))
             props)
  end.

(** [JSON.stringify(value)] and [JSON.stringify(value, null, space)] for a
    numeric [space]: the gap is [min(space, 10)] spaces. *)
Definition JSON_stringify (value : Json) (space : nat) : jsstring :=
  SerializeJSONProperty (repeat 0x20 (Nat.min space 10)) [] value.

(** ** Errors, requests and responses *)

Inductive ErrorClass := BaseError | TypeError | SyntaxError | DOMException.

Record JsError := mkError { err_class : ErrorClass; message : jsstring }.

(** [err instanceof TypeError]. *)
Definition instanceof_TypeError (err : JsError) : bool :=
  match err_class err with
  | TypeError => true
  | _ => false
  end.

Record Request := mkRequest {
  url : jsstring;
  method : jsstring;
  headers : list (jsstring * jsstring);
  body : jsstring
}.

Record Response := mkResponse { status : N }.

(** [Response.ok]: the status is in the range 200 to 299. *)
Definition ok (res : Response) : bool :=
  (200 <=? status res) && (status res <=? 299).

(** ** The page *)

(** The content of the output container. [IdSpan id text] is a
    [<span id='id'>text</span>] element, which [getElementById] finds;
    [Html s] is any other run of markup, kept as written. *)
Inductive Node :=
| Html (s : jsstring)
| IdSpan (id : jsstring) (text : jsstring).

(** The markup a node stands for, as the source writes it. *)
Definition node_html (n : Node) : jsstring :=
  match n with
  | Html s => s
  | IdSpan id text =>
      lit "<span id='" ++ id ++ lit "'>" ++ text ++ lit "</span>"
  end.

Definition innerHTML (content : list Node) : jsstring :=
  concat (map node_html content).

(** The two closures handed to the timer functions. *)
Inductive Callback := TickCb | WaitingCb.

Record Timer := mkTimer {
  callback : Callback;
  delay : N;
  repeating : bool;
  due : N
}.

(** What the handler does to the browser, in the order it does it. *)
Inductive Effect :=
| Alert (msg : jsstring)
| ConsoleError (err : JsError)
| Fetch (req : Request)
| SetInnerHTML (content : list Node)
| SetTextContent (index : nat) (text : jsstring)
| SetInterval (handle : N) (cb : Callback) (ms : N)
| SetTimeout (handle : N) (cb : Callback) (ms : N)
| ClearTimeout (handle : option N)
| ClearInterval (handle : option N)
| Uncaught (err : JsError).

(** The browser side: the values of the two inputs, the content of the
    output container, the clock in milliseconds, the table of active timers
    and the history of effects. The page has the three elements the handler
    looks up by id (documentUrlInput, questionInput, responseBox); its other
    elements are not modelled. *)
Record World := mkWorld {
  documentUrlInput : jsstring;
  questionInput : jsstring;
  responseBox : list Node;
  clock : N;
  timers : gmap N Timer;
  next_handle : N;
  log : list Effect
}.

(** Where the [async] function stands. *)
Inductive Pc :=
| NotCalled
| AwaitFetch
| AwaitText
| AwaitJson
| Returned.

(** One invocation: the browser and the variables the closures share
    ([timer], [timerInterval] and [waitingTimeout]; [None] is [null]). *)
Record Sys := mkSys {
  world : World;
  pc : Pc;
  timer : N;
  timerInterval : option N;
  waitingTimeout : option N
}.

Definition with_world (f : World -> World) (s : Sys) : Sys :=
  mkSys (f (world s)) (pc s) (timer s) (timerInterval s) (waitingTimeout s).

Definition add_effect (e : Effect) (w : World) : World :=
  mkWorld (documentUrlInput w) (questionInput w) (responseBox w) (clock w)
    (timers w) (next_handle w) (log w ++ [e]).

Definition with_responseBox (f : list Node -> list Node) (w : World) : World :=
  mkWorld (documentUrlInput w) (questionInput w) (f (responseBox w)) (clock w)
    (timers w) (next_handle w) (log w).

Definition with_timers (f : gmap N Timer -> gmap N Timer) (w : World) : World :=
  mkWorld (documentUrlInput w) (questionInput w) (responseBox w) (clock w)
    (f (timers w)) (next_handle w) (log w).

Definition with_clock (f : N -> N) (w : World) : World :=
  mkWorld (documentUrlInput w) (questionInput w) (responseBox w) (f (clock w))
    (timers w) (next_handle w) (log w).

Definition bump_handle (w : World) : World :=
  mkWorld (documentUrlInput w) (questionInput w) (responseBox w) (clock w)
    (timers w) (next_handle w + 1) (log w).

(** ** Computations that may throw *)

Inductive Completion (A : Type) :=
| Normal (a : A)
| Throw (err : JsError).
Arguments Normal {A} a.
Arguments Throw {A} err.

Definition Js (A : Type) : Type := Sys -> Completion A * Sys.

#[global] Instance Js_ret : MRet Js := fun A a s => (Normal a, s).
#[global] Instance Js_bind : MBind Js := fun A B f m s =>
  match m s with
  | (Normal a, s') => f a s'
  | (Throw err, s') => (Throw err, s')
  end.

Definition throw {A} (err : JsError) : Js A := fun s => (Throw err, s).

(** [try { body } catch (err) { handler }]. *)
Definition try_catch {A} (body : Js A) (handler : JsError -> Js A) : Js A :=
  fun s =>
    match body s with
    | (Normal a, s') => (Normal a, s')
    | (Throw err, s') => handler err s'
    end.

Definition effect (e : Effect) : Js unit :=
  fun s => (Normal tt, with_world (add_effect e) s).

(** *** Browser functions *)

Definition alert (msg : jsstring) : Js unit := effect (Alert msg).

Definition console_error (err : JsError) : Js unit := effect (ConsoleError err).

(** The first [IdSpan] with the given id, by position. *)
Fixpoint find_id (id : jsstring) (content : list Node) : option nat :=
  match content with
  | [] => None
  | Html _ :: r => S <$> find_id id r
  | IdSpan id' _ :: r =>
      if bool_decide (id' = id) then Some 0%nat else S <$> find_id id r
  end.

(** [document.getElementById(id)]; [None] is [null]. *)
Definition getElementById (id : jsstring) : Js (option nat) :=
  fun s => (Normal (find_id id (responseBox (world s))), s).

Definition set_text (text : jsstring) (n : Node) : Node :=
  match n with
  | Html s => Html s
  | IdSpan id _ => IdSpan id text
  end.

(** [elem.textContent = text]. Setting a property of [null] throws. *)
Definition set_textContent (elem : option nat) (text : jsstring) : Js unit :=
  match elem with
  | None => throw (mkError TypeError (lit "Cannot set properties of null"))
  | Some i =>
      fun s =>
        (Normal tt,
         with_world (fun w =>
           add_effect (SetTextContent i text)
             (with_responseBox (fun c =>
                match c !! i with
                | Some n => <[i := set_text text n]> c
                | None => c
                end) w)) s)
  end.

(** [responseBox.innerHTML = content]. *)
Definition set_innerHTML (content : list Node) : Js unit :=
  fun s =>
    (Normal tt,
     with_world (fun w =>
       add_effect (SetInnerHTML content) (with_responseBox (fun _ => content) w)) s).

Definition start_timer (rep : bool) (cb : Callback) (ms : N) : Js N :=
  fun s =>
    let w := world s in
    let h := next_handle w in
    (Normal h,
     with_world (fun w =>
       add_effect ((if rep then SetInterval else SetTimeout) h cb ms)
         (bump_handle
            (with_timers (insert h (mkTimer cb ms rep (clock w + ms))) w))) s).

Definition setInterval : Callback -> N -> Js N := start_timer true.
Definition setTimeout : Callback -> N -> Js N := start_timer false.

Definition stop_timer (handle : option N) (w : World) : World :=
  match handle with
  | Some h => with_timers (delete h) w
  | None => w
  end.

(** [clearTimeout] and [clearInterval] share one table; [null] names no
    timer. *)
Definition clearTimeout (handle : option N) : Js unit :=
  fun s =>
    (Normal tt,
     with_world (fun w => add_effect (ClearTimeout handle) (stop_timer handle w)) s).

Definition clearInterval (handle : option N) : Js unit :=
  fun s =>
    (Normal tt,
     with_world (fun w => add_effect (ClearInterval handle) (stop_timer handle w)) s).

(** [fetch(url, init)]: the request goes out; the promise it returns is
    settled later by the network. *)
Definition fetch (req : Request) : Js unit := effect (Fetch req).

(** *** The variables of one invocation *)

Definition get {A} (field : Sys -> A) : Js A := fun s => (Normal (field s), s).

Definition set_timer (n : N) : Js unit :=
  fun s => (Normal tt, mkSys (world s) (pc s) n (timerInterval s) (waitingTimeout s)).

Definition set_timerInterval (h : option N) : Js unit :=
  fun s => (Normal tt, mkSys (world s) (pc s) (timer s) h (waitingTimeout s)).

Definition set_waitingTimeout (h : option N) : Js unit :=
  fun s => (Normal tt, mkSys (world s) (pc s) (timer s) (timerInterval s) h).

Definition set_pc (p : Pc) : Js unit :=
  fun s => (Normal tt, mkSys (world s) p (timer s) (timerInterval s) (waitingTimeout s)).

(** ** The handler *)

(** *** The markup it writes (lines 19, 27, 54, 61 and 63) *)

Definition loader : jsstring :=
  lit "<span class=" ++ dq ++ lit "loader" ++ dq ++ lit "></span>".

Definition thinking_content : list Node :=
  [ Html (loader ++ lit " <span>Thinking... Please wait while we analyze your document and questions. ");
    IdSpan (lit "timerSpan") (lit "0s");
    Html (lit "</span>") ].

Definition still_working_content (timer : N) : list Node :=
  [ Html (loader ++ lit " <span>Still working... This may take a few more seconds for large documents or complex questions.<br><span class='waiting-msg'>Thank you for your patience!</span> ");
    IdSpan (lit "timerSpan") (decimal timer ++ lit "s");
    Html (lit "</span>") ].

(** U+23F1 U+FE0F, the stopwatch, and U+274C, the cross mark. *)
Definition stopwatch : jsstring := [0x23F1; 0xFE0F].
Definition cross_mark : jsstring := [0x274C].

Definition elapsed_line (timer : N) : jsstring :=
  lit "<div style=" ++ dq
  ++ lit "margin-bottom:8px;color:var(--accent);font-size:0.98em;" ++ dq
  ++ lit ">" ++ stopwatch ++ lit " Answer loaded in <b>" ++ decimal timer
  ++ lit "s</b></div>".

Definition answer_content (timer : N) (data : Json) : list Node :=
  [ Html (elapsed_line timer ++ lit "<pre>" ++ JSON_stringify data 2
          ++ lit "</pre>") ].

Definition error_label : jsstring :=
  lit "<b style=" ++ dq ++ lit "color:red" ++ dq ++ lit ">" ++ cross_mark
  ++ lit " Error:</b> ".

Definition connect_error_content : list Node :=
  [ Html (error_label ++ lit "Could not connect to backend server.") ].

Definition error_content (msg : jsstring) : list Node :=
  [ Html (error_label ++ msg) ].

(** *** Lines 14 to 17 *)

Definition updateTimer : Js unit :=
  timerElem ← getElementById (lit "timerSpan");
  if bool_decide (is_Some timerElem)
  then n ← get timer; set_textContent timerElem (decimal n ++ lit "s")
  else mret tt.

(** *** Lines 21 to 24, the callback of [setInterval] *)

Definition tick : Js unit :=
  n ← get timer;
  set_timer (n + 1);;
  updateTimer.

(** *** Lines 26 to 29, the callback of [setTimeout] *)

Definition waiting : Js unit :=
  n ← get timer;
  set_innerHTML (still_working_content n);;
  updateTimer.

Definition run_callback (cb : Callback) : Js unit :=
  match cb with
  | TickCb => tick
  | WaitingCb => waiting
  end.

(** *** Lines 56 to 65, the [catch] block *)

Definition catch_block (err : JsError) : Js unit :=
  console_error err;;
  h ← get waitingTimeout; clearTimeout h;;
  h ← get timerInterval; clearInterval h;;
  if instanceof_TypeError err && includes (message err) (lit "Failed to fetch")
  then set_innerHTML connect_error_content
  else set_innerHTML (error_content (message err)).

(** A stretch of the [try] block, up to the next [await] or to the end of
    the function: [body] yields the point where the function stands next. *)
Definition try_stretch (body : Js Pc) : Js unit :=
  next ← try_catch body (fun err => catch_block err;; mret Returned);
  set_pc next.

Definition the_request (documentUrl : jsstring) (questions : list jsstring)
  : Request :=
  mkRequest (lit "/hackrx/run") (lit "POST")
    [ (lit "Content-Type", lit "application/json");
      (lit "Authorization", lit "Bearer hackrx-secret-token");
      (lit "Accept", lit "application/json") ]
    (JSON_stringify
       (JObject [ (lit "documents", JString documentUrl);
                  (lit "questions", JArray (map JString questions)) ]) 0).

(** *** Lines 1 to 45: from the call to the first [await] *)

Definition submitForm : Js unit :=
  documentUrl ← get (fun s => documentUrlInput (world s));
  questionsText ← get (fun s => questionInput (world s));
  if negb (truthy documentUrl) || negb (truthy questionsText)
  then
    alert (lit "Please enter a document URL and your questions.");;
    set_pc Returned
  else
    set_timer 0;;
    set_timerInterval None;;
    set_innerHTML thinking_content;;
    set_timer 0;;
    h ← setInterval TickCb 1000;
    set_timerInterval (Some h);;
    h ← setTimeout WaitingCb 5000;
    set_waitingTimeout (Some h);;
    try_stretch (
      let questions := questions_of questionsText in
      fetch (the_request documentUrl questions);;
      mret AwaitFetch).

(** *** Lines 46 to 49: the promise of [fetch] has settled *)

Definition after_fetch (settled : JsError + Response) : Js unit :=
  try_stretch (
    match settled with
    | inl err => throw err
    | inr queryRes =>
        if negb (ok queryRes) then mret AwaitText else mret AwaitJson
    end).

(** *** Line 48: the promise of [queryRes.text()] has settled *)

Definition after_text (settled : JsError + jsstring) : Js unit :=
  try_stretch (
    match settled with
    | inl err => throw err
    | inr text =>
        throw (mkError BaseError (lit "Query failed: " ++ text))
    end).

(** *** Lines 51 to 54: the promise of [queryRes.json()] has settled *)

Definition after_json (settled : JsError + Json) : Js unit :=
  try_stretch (
    match settled with
    | inl err => throw err
    | inr data =>
        h ← get waitingTimeout; clearTimeout h;;
        h ← get timerInterval; clearInterval h;;
        n ← get timer;
        set_innerHTML (answer_content n data);;
        mret Returned
    end).

(** ** The event loop *)

(** What the browser does between two stretches of the handler. A timer
    fires only once it is due; the handler resumes when the promise it
    awaits settles. *)
Inductive Event :=
| Elapse (ms : N)
| Fire (handle : N)
| FetchSettled (settled : JsError + Response)
| TextSettled (settled : JsError + jsstring)
| JsonSettled (settled : JsError + Json).

(** A task runs to completion; what it throws and nobody catches is
    reported. *)
Definition run_task (task : Js unit) (s : Sys) : Sys :=
  match task s with
  | (Normal _, s') => s'
  | (Throw err, s') => with_world (add_effect (Uncaught err)) s'
  end.

(** After the callback of timer [h] has run: an interval is armed again, a
    timeout leaves the table; a timer cleared meanwhile stays cleared. *)
Definition rearm (h : N) (w : World) : World :=
  match timers w !! h with
  | Some t =>
      if repeating t
      then with_timers
             (insert h (mkTimer (callback t) (delay t) true (clock w + delay t))) w
      else with_timers (delete h) w
  | None => w
  end.

Definition step (ev : Event) (s : Sys) : Sys :=
  match ev with
  | Elapse ms => with_world (with_clock (fun t => t + ms)) s
  | Fire h =>
      match timers (world s) !! h with
      | Some t =>
          if due t <=? clock (world s)
          then with_world (rearm h) (run_task (run_callback (callback t)) s)
          else s
      | None => s
      end
  | FetchSettled settled =>
      match pc s with
      | AwaitFetch => run_task (after_fetch settled) s
      | _ => s
      end
  | TextSettled settled =>
      match pc s with
      | AwaitText => run_task (after_text settled) s
      | _ => s
      end
  | JsonSettled settled =>
      match pc s with
      | AwaitJson => run_task (after_json settled) s
      | _ => s
      end
  end.

Definition run (evs : list Event) (s : Sys) : Sys :=
  fold_left (fun s ev => step ev s) evs s.

(** A page on which the handler has not been called yet. *)
Definition idle (w : World) : Sys := mkSys w NotCalled 0 None None.

(** The user clicks: the handler runs up to its first [await]. *)
Definition click (w : World) : Sys := run_task submitForm (idle w).

(** *** What the history shows *)

Definition requests (l : list Effect) : list Request :=
  omap (fun e => match e with Fetch req => Some req | _ => None end) l.

Definition alerts (l : list Effect) : list jsstring :=
  omap (fun e => match e with Alert msg => Some msg | _ => None end) l.

Definition logged (l : list Effect) : list JsError :=
  omap (fun e => match e with ConsoleError err => Some err | _ => None end) l.

Definition timers_started (l : list Effect) : list Effect :=
  List.filter (fun e => match e with
                        | SetInterval _ _ _ | SetTimeout _ _ _ => true
                        | _ => false
                        end) l.

(** ** The decomposition of the questions text, in the words of the
    specification *)

(** Splitting on commas, scanning left to right: [cur] is the piece being
    read, last unit first. *)
Fixpoint comma_pieces_from (cur s : jsstring) : list jsstring :=
  match s with
  | [] => [rev cur]
  | c :: r =>
      if c =? comma then rev cur :: comma_pieces_from [] r
      else comma_pieces_from (c :: cur) r
  end.

Definition comma_pieces (s : jsstring) : list jsstring := comma_pieces_from [] s.

Fixpoint drop_white_space (s : jsstring) : jsstring :=
  match s with
  | [] => []
  | c :: r => if is_white_space c then drop_white_space r else c :: r
  end.

(** Whitespace removed from both ends. *)
Definition strip (s : jsstring) : jsstring :=
  rev (drop_white_space (rev (drop_white_space s))).

Definition is_empty_string (s : jsstring) : bool := (length s =? 0)%nat.

(** Split on commas, trim each piece, drop the empty pieces. *)
Definition comma_split_trim_filter (questionsText : jsstring) : list jsstring :=
  List.filter (fun q => negb (is_empty_string q))
    (map strip (comma_pieces questionsText)).

(** A unit that is a comma or whitespace. *)
Definition comma_or_white_space (c : N) : bool :=
  (c =? comma) || is_white_space c.

(** ** Schedules and reachable states *)

(** Events of the timers alone: no promise settles. *)
Definition timer_event (ev : Event) : bool :=
  match ev with
  | Elapse _ | Fire _ => true
  | _ => false
  end.

(** The [k]-th second of a run in which every timer fires the moment it is
    due. In the fifth second the interval and the timeout are due together;
    [waiting_first] tells which of the two the browser runs first. *)
Definition second_events (hI hT : N) (waiting_first : bool) (k : nat)
  : list Event :=
  Elapse 1000 ::
  (if (k =? 5)%nat
   then (if waiting_first then [Fire hT; Fire hI] else [Fire hI; Fire hT])
   else [Fire hI]).

Definition on_time (hI hT : N) (waiting_first : bool) (n : nat) : list Event :=
  flat_map (second_events hI hT waiting_first) (seq 1 n).

(** The content of the output container while the request is out: the
    "thinking" markup, or the "still working" markup once the timeout has
    fired, with the elapsed-seconds span showing [n]. *)
Definition loading_content (fired : bool) (n : N) : list Node :=
  if fired then still_working_content n
  else <[1%nat := IdSpan (lit "timerSpan") (decimal n ++ lit "s")]> thinking_content.

(** The states between the first [await] and the end of the function, for
    a call made on page [w]. *)
Inductive in_flight (w : World) (s : Sys) : Prop :=
| InFlight (fired : bool) (next_tick : N) (history : list Effect)
    (fl_pc : pc s = AwaitFetch \/ pc s = AwaitText \/ pc s = AwaitJson)
    (fl_interval : timerInterval s = Some (next_handle w))
    (fl_timeout : waitingTimeout s = Some (next_handle w + 1))
    (fl_tick :
       timers (world s) !! next_handle w
       = Some (mkTimer TickCb 1000 true next_tick))
    (fl_waiting :
       timers (world s) !! (next_handle w + 1)
       = if fired then None
         else Some (mkTimer WaitingCb 5000 false (clock w + 5000)))
    (fl_others :
       forall h, h <> next_handle w -> h <> next_handle w + 1 ->
                 timers (world s) !! h = None)
    (fl_box : responseBox (world s) = loading_content fired (timer s))
    (fl_elapsed : clock w + 1000 * timer s <= clock (world s))
    (fl_next : clock w + 1000 * (timer s + 1) <= next_tick)
    (fl_late : fired = true -> clock w + 5000 <= clock (world s))
    (fl_log : log (world s) = log w ++ history)
    (fl_requests :
       requests history
       = [the_request (documentUrlInput w) (questions_of (questionInput w))])
    (fl_logged : logged history = [])
    (fl_alerts : alerts history = [])
    (fl_started :
       timers_started history
       = [SetInterval (next_handle w) TickCb 1000;
          SetTimeout (next_handle w + 1) WaitingCb 5000]).

(** The error markup the [catch] block chooses (lines 60 to 64). *)
Definition final_error_content (err : JsError) : list Node :=
  if instanceof_TypeError err && includes (message err) (lit "Failed to fetch")
  then connect_error_content
  else error_content (message err).

(** The state a terminal render leaves: after the effects [pre], both
    timers are cleared and [final] is written to the output container. *)
Definition rendered (pre : list Effect) (final : list Node) (s : Sys) : Sys :=
  let w := world s in
  mkSys
    (mkWorld (documentUrlInput w) (questionInput w) final (clock w)
       (timers (stop_timer (timerInterval s) (stop_timer (waitingTimeout s) w)))
       (next_handle w)
       (log w ++ pre ++ [ClearTimeout (waitingTimeout s);
                          ClearInterval (timerInterval s);
                          SetInnerHTML final]))
    Returned (timer s) (timerInterval s) (waitingTimeout s).

(** The states after a terminal render. *)
Inductive completed (w : World) (s : Sys) : Prop :=
| Completed (before : list Effect)
    (co_pc : pc s = Returned)
    (co_timers : timers (world s) = ∅)
    (co_log :
       log (world s)
       = log w ++ before
         ++ [ClearTimeout (Some (next_handle w + 1));
             ClearInterval (Some (next_handle w));
             SetInnerHTML (responseBox (world s))])
    (co_requests :
       requests before
       = [the_request (documentUrlInput w) (questions_of (questionInput w))])
    (co_alerts : alerts before = [])
    (co_started :
       timers_started before
       = [SetInterval (next_handle w) TickCb 1000;
          SetTimeout (next_handle w + 1) WaitingCb 5000]).

(** The state [n] whole seconds after the call, when every timer has fired
    on time and the request is still out. *)
Inductive on_schedule (w : World) (n : nat) (s : Sys) : Prop :=
| OnSchedule
    (os_flight : in_flight w s)
    (os_pc : pc s = AwaitFetch)
    (os_timer : timer s = N.of_nat n)
    (os_clock : clock (world s) = clock w + 1000 * N.of_nat n)
    (os_tick :
       timers (world s) !! next_handle w
       = Some (mkTimer TickCb 1000 true (clock w + 1000 * (N.of_nat n + 1))))
    (os_waiting :
       timers (world s) !! (next_handle w + 1)
       = if (5 <=? n)%nat then None
         else Some (mkTimer WaitingCb 5000 false (clock w + 5000)))
    (os_box :
       responseBox (world s) = loading_content (5 <=? n)%nat (N.of_nat n)).

(** ** Sample pages *)

(** A page with both inputs filled in, an empty output container and no
    timer running. *)
Definition sample_page : World :=
  mkWorld (lit "https://example.com/policy.pdf") (lit "a, b ,,c") [] 0 ∅ 1 [].

(** The same page with nothing but commas and blanks as questions. *)
Definition blank_questions_page : World :=
  mkWorld (lit "https://example.com/policy.pdf") (lit " , ,, ") [] 0 ∅ 1 [].

(** The same page with the questions left empty. *)
Definition empty_questions_page : World :=
  mkWorld (lit "https://example.com/policy.pdf") [] [Html (lit "old")] 0 ∅ 1 [].

(** ** Further views of the history and of the inputs *)

Definition uncaught (l : list Effect) : list JsError :=
  omap (fun e => match e with Uncaught err => Some err | _ => None end) l.

(** The contents written to the output container, in order. *)
Definition renders (l : list Effect) : list (list Node) :=
  omap (fun e => match e with SetInnerHTML c => Some c | _ => None end) l.

(** The test of line 6. *)
Definition inputs_rejected (w : World) : bool :=
  negb (truthy (documentUrlInput w)) || negb (truthy (questionInput w)).

(** The effects that can follow the first stretch of a call: writes to the
    output container, the console entry and the two cancellations. *)
Definition later_effect (e : Effect) : bool :=
  match e with
  | SetInnerHTML _ | SetTextContent _ _ | ConsoleError _
  | ClearTimeout _ | ClearInterval _ => true
  | _ => false
  end.

(** A question as the backend should get it: not empty, free of commas,
    with no whitespace at either end. *)
Definition clean_question (q : jsstring) : bool :=
  truthy q
  && forallb (fun c => negb (c =? comma)) q
  && negb (is_white_space (hd 0 q))
  && negb (is_white_space (List.last q 0)).

(** A code unit that is not a control character. *)
Definition printable (c : N) : bool := 0x20 <=? c.

(** ** Tactics *)

(** Unfolds the browser functions and the sequencing, down to the record
    fields. *)
Ltac js_run :=
  cbv [run_task get mbind mret Js_bind Js_ret throw try_stretch
       try_catch alert console_error fetch effect set_timer
       set_timerInterval set_waitingTimeout set_pc set_innerHTML
       setInterval setTimeout start_timer clearTimeout clearInterval
       stop_timer with_world add_effect with_responseBox with_timers
       with_clock bump_handle
       world pc timer timerInterval waitingTimeout documentUrlInput
       questionInput responseBox clock timers next_handle log].

(** Names the fields of a page or of a state, so that [js_run] computes on
    them. *)
Ltac open_world w :=
  let u := fresh "url" in
  let q := fresh "qs" in
  let box := fresh "box" in
  let c := fresh "now" in
  let tm := fresh "tm" in
  let nh := fresh "nh" in
  let lg := fresh "lg" in
  destruct w as [u q box c tm nh lg];
  cbn [documentUrlInput questionInput responseBox clock timers next_handle log] in *.

Ltac open_sys s :=
  let w := fresh "w" in
  let p := fresh "p" in
  let n := fresh "n" in
  let hi := fresh "hi" in
  let ht := fresh "ht" in
  destruct s as [w p n hi ht];
  cbn [world pc timer timerInterval waitingTimeout] in *;
  open_world w.

Ltac fields :=
  cbn [world pc timer timerInterval waitingTimeout documentUrlInput
       questionInput responseBox clock timers next_handle log
       callback delay repeating due].

(** * Properties *)

(** ** Properties of the string functions *)

Section Strings.

Implicit Types (s t p : jsstring) (c : N).

Lemma split_from_nonempty sep k s : split_from sep k s <> [].
Proof.
  revert k. induction s as [|c r IH]; intros k; simpl; [done|].
  destruct k; [|apply IH].
  destruct (starts_with sep (c :: r)); [done|].
  destruct (split_from sep 0 r); done.
Qed.

Lemma comma_pieces_from_split cur s :
  comma_pieces_from cur s =
    match split_from [comma] 0 s with
    | p :: ps => (rev cur ++ p) :: ps
    | [] => []
    end.
Proof.
  revert cur. induction s as [|c r IH]; intros cur.
  - simpl. by rewrite app_nil_r.
  - cbn [comma_pieces_from split_from starts_with length Nat.sub].
    rewrite (N.eqb_sym comma c), andb_true_r.
    destruct (c =? comma) eqn:Hc.
    + rewrite IH. simpl. rewrite app_nil_r.
      pose proof (split_from_nonempty [comma] 0 r).
      by destruct (split_from [comma] 0 r).
    + rewrite IH.
      pose proof (split_from_nonempty [comma] 0 r).
      destruct (split_from [comma] 0 r); [done|].
      simpl. by rewrite <- app_assoc.
Qed.

Lemma split_comma s : split (lit ",") s = comma_pieces s.
Proof.
  unfold comma_pieces. rewrite comma_pieces_from_split.
  change (split (lit ",") s) with (split_from [comma] 0 s).
  pose proof (split_from_nonempty [comma] 0 s).
  by destruct (split_from [comma] 0 s).
Qed.

Lemma trimStart_drop s : trimStart s = drop_white_space s.
Proof. induction s as [|c r IH]; simpl; [done|]. by rewrite IH. Qed.

Lemma drop_white_space_snoc s c :
  drop_white_space (s ++ [c]) =
    if forallb is_white_space s
    then (if is_white_space c then [] else [c])
    else drop_white_space s ++ [c].
Proof.
  induction s as [|d r IH]; simpl; [done|].
  destruct (is_white_space d); simpl; [apply IH | done].
Qed.

Lemma trimEnd_nil s : trimEnd s = [] <-> forallb is_white_space s = true.
Proof.
  induction s as [|c r IH]; simpl; [done|].
  destruct (trimEnd r) eqn:E.
  - destruct (is_white_space c); simpl; [tauto|]. split; done.
  - split; [done|]. intros H. apply andb_true_iff in H as [_ H].
    apply IH in H. done.
Qed.

Lemma trimEnd_rev s : trimEnd s = rev (drop_white_space (rev s)).
Proof.
  induction s as [|c r IH]; [done|].
  cbn [trimEnd rev]. rewrite drop_white_space_snoc.
  destruct (forallb is_white_space (rev r)) eqn:Hws.
  - assert (trimEnd r = []) as ->.
    { apply trimEnd_nil. rewrite <- Hws. clear.
      induction r as [|d r IH]; simpl; [done|].
      rewrite forallb_app, IH. simpl. rewrite andb_true_r. apply andb_comm. }
    by destruct (is_white_space c).
  - rewrite rev_app_distr. simpl. rewrite <- IH.
    destruct (trimEnd r) eqn:E; [|done].
    exfalso. assert (forallb is_white_space r = true) as H by by apply trimEnd_nil.
    rewrite forallb_forall in H.
    assert (forallb is_white_space (rev r) = true); [|congruence].
    apply forallb_forall. intros x Hx. apply H. by apply in_rev.
Qed.

Lemma trim_strip s : trim s = strip s.
Proof. unfold trim, strip. by rewrite trimEnd_rev, trimStart_drop. Qed.

Lemma truthy_nonempty s : truthy s = negb (is_empty_string s).
Proof. by destruct s. Qed.

(** The source's pipeline and the specification's decomposition agree. *)
Lemma questions_of_spec s : questions_of s = comma_split_trim_filter s.
Proof.
  unfold questions_of, comma_split_trim_filter.
  rewrite split_comma.
  rewrite (List.map_ext (fun q => trim q) strip) by apply trim_strip.
  apply List.filter_ext. intros q. apply truthy_nonempty.
Qed.

(** *** The decomposition is the one the words describe *)

Lemma comma_pieces_from_nonempty cur s : comma_pieces_from cur s <> [].
Proof.
  revert cur. induction s as [|c r IH]; intros cur; simpl; [done|].
  destruct (c =? comma); [done | apply IH].
Qed.

(** Putting the commas back gives the text. *)
Lemma join_comma_pieces_from cur s :
  join [comma] (comma_pieces_from cur s) = rev cur ++ s.
Proof.
  revert cur. induction s as [|c r IH]; intros cur; simpl.
  - by rewrite app_nil_r.
  - destruct (c =? comma) eqn:Hc.
    + apply N.eqb_eq in Hc as ->.
      pose proof (comma_pieces_from_nonempty [] r) as Hne.
      specialize (IH []). simpl in IH.
      destruct (comma_pieces_from [] r) as [|p ps] eqn:E; [done|].
      change (join [comma] (rev cur :: p :: ps))
        with (rev cur ++ [comma] ++ join [comma] (p :: ps)).
      by rewrite IH.
    + rewrite IH. simpl. by rewrite <- app_assoc.
Qed.

Lemma join_comma_pieces s : join (lit ",") (comma_pieces s) = s.
Proof. apply (join_comma_pieces_from [] s). Qed.

(** No piece holds a comma. *)
Lemma comma_pieces_from_no_comma cur s :
  forallb (fun c => negb (c =? comma)) cur = true ->
  Forall (fun p => forallb (fun c => negb (c =? comma)) p = true)
    (comma_pieces_from cur s).
Proof.
  revert cur. induction s as [|c r IH]; intros cur Hcur; simpl.
  - constructor; [|done]. apply forallb_forall. intros x Hx.
    rewrite forallb_forall in Hcur. apply Hcur. by apply in_rev.
  - destruct (c =? comma) eqn:Hc.
    + constructor; [|by apply IH].
      apply forallb_forall. intros x Hx.
      rewrite forallb_forall in Hcur. apply Hcur. by apply in_rev.
    + apply IH. simpl. by rewrite Hc.
Qed.

Lemma comma_pieces_no_comma s :
  Forall (fun p => forallb (fun c => negb (c =? comma)) p = true)
    (comma_pieces s).
Proof. by apply comma_pieces_from_no_comma. Qed.

Lemma drop_white_space_split s :
  exists l, s = l ++ drop_white_space s
            /\ forallb is_white_space l = true
            /\ (forall c t, drop_white_space s = c :: t -> is_white_space c = false).
Proof.
  induction s as [|c r (l & Hl & Hws & Hhd)]; simpl.
  - exists []. by repeat split.
  - destruct (is_white_space c) eqn:Hc.
    + exists (c :: l). simpl. rewrite Hc, Hws. repeat split; [by f_equal | done].
    + exists []. repeat split. intros c' t [= <- _]. done.
Qed.

(** What is stripped is whitespace, and what is left neither starts nor
    ends with whitespace. *)
Lemma strip_spec s :
  exists l r, s = l ++ strip s ++ r
              /\ forallb is_white_space l = true
              /\ forallb is_white_space r = true
              /\ (forall c t, strip s = c :: t -> is_white_space c = false)
              /\ (forall c t, strip s = t ++ [c] -> is_white_space c = false).
Proof.
  unfold strip.
  destruct (drop_white_space_split s) as (l & Hl & Hlws & Hhd).
  destruct (drop_white_space_split (rev (drop_white_space s)))
    as (r & Hr & Hrws & Hlast).
  set (d := drop_white_space s) in *.
  set (e := drop_white_space (rev d)) in *.
  assert (d = rev e ++ rev r) as Hd.
  { rewrite <- rev_app_distr, <- Hr. by rewrite rev_involutive. }
  exists l, (rev r). repeat split.
  - by rewrite <- Hd.
  - done.
  - apply forallb_forall. intros x Hx. rewrite forallb_forall in Hrws.
    apply Hrws. by apply in_rev.
  - intros c t Ht. rewrite Ht in Hd. by apply (Hhd c (t ++ rev r)).
  - intros c t Ht. apply (Hlast c (rev t)).
    rewrite <- (rev_involutive e), Ht, rev_app_distr. done.
Qed.

(** *** Texts of commas and whitespace only *)

Lemma drop_white_space_all s :
  forallb is_white_space s = true -> drop_white_space s = [].
Proof.
  induction s as [|c r IH]; simpl; [done|].
  destruct (is_white_space c); simpl; [done | discriminate].
Qed.

Lemma strip_all_white_space s :
  forallb is_white_space s = true -> strip s = [].
Proof. intros H. unfold strip. by rewrite (drop_white_space_all s H). Qed.

Lemma comma_pieces_from_white cur s :
  forallb is_white_space cur = true ->
  forallb comma_or_white_space s = true ->
  Forall (fun p => forallb is_white_space p = true) (comma_pieces_from cur s).
Proof.
  revert cur. induction s as [|c r IH]; intros cur Hcur Hs; simpl.
  - constructor; [|done]. apply forallb_forall. intros x Hx.
    rewrite forallb_forall in Hcur. apply Hcur. by apply in_rev.
  - simpl in Hs. apply andb_true_iff in Hs as [Hc Hr].
    destruct (c =? comma) eqn:Hcc.
    + constructor; [|by apply IH].
      apply forallb_forall. intros x Hx.
      rewrite forallb_forall in Hcur. apply Hcur. by apply in_rev.
    + apply IH; [|done]. simpl. rewrite Hcur.
      unfold comma_or_white_space in Hc. rewrite Hcc in Hc. simpl in Hc.
      by rewrite Hc.
Qed.

Lemma questions_of_commas_and_white_space s :
  forallb comma_or_white_space s = true -> questions_of s = [].
Proof.
  intros Hs. rewrite questions_of_spec. unfold comma_split_trim_filter, comma_pieces.
  pose proof (comma_pieces_from_white [] s eq_refl Hs) as H.
  induction H as [|p ps Hp _ IH]; simpl; [done|].
  by rewrite (strip_all_white_space p Hp).
Qed.

End Strings.

(** ** Properties of the timer callbacks *)

Section Callbacks.

Implicit Types (s : Sys) (w : World).

(** What [updateTimer] does, by whether the span is there. *)
Lemma updateTimer_result s :
  updateTimer s =
    (Normal tt,
     match find_id (lit "timerSpan") (responseBox (world s)) with
     | Some i =>
         with_world (fun w =>
           add_effect (SetTextContent i (decimal (timer s) ++ lit "s"))
             (with_responseBox (fun c =>
                match c !! i with
                | Some n => <[i := set_text (decimal (timer s) ++ lit "s") n]> c
                | None => c
                end) w)) s
     | None => s
     end).
Proof.
  unfold updateTimer, getElementById, mbind, Js_bind.
  destruct (find_id (lit "timerSpan") (responseBox (world s))); reflexivity.
Qed.

Lemma find_id_loading fired n :
  find_id (lit "timerSpan") (loading_content fired n) = Some 1%nat.
Proof. by destruct fired. Qed.

Lemma lookup_loading fired n :
  loading_content fired n !! 1%nat
  = Some (IdSpan (lit "timerSpan") (decimal n ++ lit "s")).
Proof. by destruct fired. Qed.

Lemma insert_loading fired n m :
  <[1%nat := IdSpan (lit "timerSpan") (decimal m ++ lit "s")]>
    (loading_content fired n)
  = loading_content fired m.
Proof. by destruct fired. Qed.

(** A tick while the loading markup is shown. *)
Lemma tick_loading s fired :
  responseBox (world s) = loading_content fired (timer s) ->
  run_task tick s =
    mkSys
      (add_effect (SetTextContent 1 (decimal (timer s + 1) ++ lit "s"))
         (with_responseBox (fun _ => loading_content fired (timer s + 1))
            (world s)))
      (pc s) (timer s + 1) (timerInterval s) (waitingTimeout s).
Proof.
  intros Hbox. unfold run_task, tick, get, set_timer, mbind, Js_bind.
  rewrite updateTimer_result. cbn [world timer pc timerInterval waitingTimeout].
  rewrite Hbox, find_id_loading.
  unfold with_world, with_responseBox, add_effect.
  cbn [world timer pc timerInterval waitingTimeout documentUrlInput
       questionInput responseBox clock timers next_handle log].
  rewrite Hbox, lookup_loading. cbn [set_text]. by rewrite insert_loading.
Qed.

(** The deferred callback. *)
Lemma waiting_result s :
  run_task waiting s =
    mkSys
      (add_effect (SetTextContent 1 (decimal (timer s) ++ lit "s"))
         (add_effect (SetInnerHTML (still_working_content (timer s)))
            (with_responseBox (fun _ => loading_content true (timer s))
               (world s))))
      (pc s) (timer s) (timerInterval s) (waitingTimeout s).
Proof.
  unfold run_task, waiting, get, set_innerHTML, mbind, Js_bind.
  rewrite updateTimer_result.
  unfold with_world, with_responseBox, add_effect.
  cbn [world timer pc timerInterval waitingTimeout documentUrlInput
       questionInput responseBox clock timers next_handle log].
  change (still_working_content (timer s)) with (loading_content true (timer s)).
  rewrite find_id_loading, lookup_loading. cbn [set_text].
  by rewrite insert_loading.
Qed.

End Callbacks.

(** ** Properties of the stretches of [submitForm] *)

Lemma truthy_true (s : jsstring) : s <> [] -> truthy s = true.
Proof. by destruct s. Qed.

Section Stretches.

Implicit Types (s : Sys) (w : World).

(** A call with both inputs filled in runs up to [fetch]. *)
Lemma click_valid w :
  documentUrlInput w <> [] ->
  questionInput w <> [] ->
  click w =
    mkSys
      (mkWorld (documentUrlInput w) (questionInput w) thinking_content
         (clock w)
         (<[next_handle w + 1 := mkTimer WaitingCb 5000 false (clock w + 5000)]>
            (<[next_handle w := mkTimer TickCb 1000 true (clock w + 1000)]>
               (timers w)))
         (next_handle w + 1 + 1)
         (log w ++ [SetInnerHTML thinking_content;
                    SetInterval (next_handle w) TickCb 1000;
                    SetTimeout (next_handle w + 1) WaitingCb 5000;
                    Fetch (the_request (documentUrlInput w)
                             (questions_of (questionInput w)))]))
      AwaitFetch 0 (Some (next_handle w)) (Some (next_handle w + 1)).
Proof.
  intros Hu Hq. open_world w. unfold click, submitForm, idle. js_run.
  rewrite (truthy_true _ Hu), (truthy_true _ Hq). cbn [negb orb]. js_run.
  repeat rewrite <- app_assoc. reflexivity.
Qed.

(** A call with an input left empty alerts and returns. *)
Lemma click_invalid w :
  documentUrlInput w = [] \/ questionInput w = [] ->
  click w =
    mkSys
      (add_effect (Alert (lit "Please enter a document URL and your questions.")) w)
      Returned 0 None None.
Proof.
  intros H. open_world w. unfold click, submitForm, idle. js_run.
  destruct H as [-> | ->]; [|rewrite orb_true_r];
    cbn [truthy negb orb]; js_run; reflexivity.
Qed.

(** The [catch] block ends in a terminal render. *)
Lemma catch_block_result s err :
  run_task (catch_block err;; set_pc Returned) s
  = rendered [ConsoleError err] (final_error_content err) s.
Proof.
  open_sys s. unfold catch_block, final_error_content, rendered.
  destruct ht, hi;
    destruct (instanceof_TypeError err && includes (message err) (lit "Failed to fetch"));
    js_run; repeat rewrite <- app_assoc; reflexivity.
Qed.

Lemma thrown_in_try s err :
  run_task (try_stretch (throw err)) s
  = rendered [ConsoleError err] (final_error_content err) s.
Proof.
  open_sys s.
  unfold try_stretch, try_catch, throw, catch_block, final_error_content, rendered.
  destruct ht, hi;
    destruct (instanceof_TypeError err && includes (message err) (lit "Failed to fetch"));
    js_run; repeat rewrite <- app_assoc; reflexivity.
Qed.

Lemma after_fetch_rejected s err :
  run_task (after_fetch (inl err)) s
  = rendered [ConsoleError err] (final_error_content err) s.
Proof. apply thrown_in_try. Qed.

Lemma after_fetch_fulfilled s queryRes :
  run_task (after_fetch (inr queryRes)) s
  = mkSys (world s) (if ok queryRes then AwaitJson else AwaitText)
      (timer s) (timerInterval s) (waitingTimeout s).
Proof. open_sys s. unfold after_fetch. by destruct (ok queryRes). Qed.

Lemma after_text_rejected s err :
  run_task (after_text (inl err)) s
  = rendered [ConsoleError err] (final_error_content err) s.
Proof. apply thrown_in_try. Qed.

Lemma after_text_fulfilled s text :
  run_task (after_text (inr text)) s
  = rendered [ConsoleError (mkError BaseError (lit "Query failed: " ++ text))]
      (error_content (lit "Query failed: " ++ text)) s.
Proof. unfold after_text. by rewrite thrown_in_try. Qed.

Lemma after_json_rejected s err :
  run_task (after_json (inl err)) s
  = rendered [ConsoleError err] (final_error_content err) s.
Proof. apply thrown_in_try. Qed.

Lemma after_json_fulfilled s data :
  run_task (after_json (inr data)) s
  = rendered [] (answer_content (timer s) data) s.
Proof.
  open_sys s. unfold after_json, rendered.
  destruct ht, hi; js_run; repeat rewrite <- app_assoc; reflexivity.
Qed.

End Stretches.

(** ** Every state a call can reach *)

Section Reachable.

Implicit Types (s : Sys) (w : World) (ev : Event).

Lemma requests_app (l1 l2 : list Effect) :
  requests (l1 ++ l2) = requests l1 ++ requests l2.
Proof. apply omap_app. Qed.

Lemma logged_app (l1 l2 : list Effect) :
  logged (l1 ++ l2) = logged l1 ++ logged l2.
Proof. apply omap_app. Qed.

Lemma alerts_app (l1 l2 : list Effect) :
  alerts (l1 ++ l2) = alerts l1 ++ alerts l2.
Proof. apply omap_app. Qed.

Lemma timers_started_app (l1 l2 : list Effect) :
  timers_started (l1 ++ l2) = timers_started l1 ++ timers_started l2.
Proof. apply List.filter_app. Qed.

(** The call itself, on a page with no timer running. *)
Lemma click_in_flight w :
  timers w = ∅ ->
  documentUrlInput w <> [] ->
  questionInput w <> [] ->
  in_flight w (click w) /\ pc (click w) = AwaitFetch.
Proof.
  intros Ht Hu Hq. rewrite (click_valid w Hu Hq). split; [|done].
  apply (InFlight w _ false (clock w + 1000)
           [SetInnerHTML thinking_content;
            SetInterval (next_handle w) TickCb 1000;
            SetTimeout (next_handle w + 1) WaitingCb 5000;
            Fetch (the_request (documentUrlInput w)
                     (questions_of (questionInput w)))]); fields.
  - by left.
  - done.
  - done.
  - rewrite lookup_insert_ne by lia. apply lookup_insert_eq.
  - apply lookup_insert_eq.
  - intros h H1 H2. rewrite !lookup_insert_ne by done. by rewrite Ht.
  - done.
  - lia.
  - lia.
  - done.
  - done.
  - done.
  - done.
  - done.
  - done.
Qed.

(** The timers leave an in-flight call in flight, where it stands. *)
Lemma step_timer_event w s ev :
  in_flight w s ->
  timer_event ev = true ->
  in_flight w (step ev s) /\ pc (step ev s) = pc s.
Proof.
  intros Hin Hev. pose proof Hin as Hin'.
  destruct Hin' as [fired next_tick history Hpc HI HT Htick Hwait Hothers Hbox
                      Hel Hnext Hlate Hlog Hreq Hlogged Halerts Hstarted].
  destruct ev as [ms | h | | | ]; try discriminate; clear Hev.
  - (* the clock advances *)
    split; [|done].
    apply (InFlight w _ fired next_tick history); unfold step, with_world, with_clock;
      fields; try done; [lia | intros Hf; specialize (Hlate Hf); lia].
  - unfold step.
    destruct (decide (h = next_handle w)) as [-> | Hne1].
    + (* the interval *)
      rewrite Htick. fields.
      destruct (next_tick <=? clock (world s)) eqn:Hdue; [|by split].
      apply N.leb_le in Hdue.
      cbn [run_callback]. rewrite (tick_loading s fired Hbox).
      unfold with_world, rearm, add_effect, with_responseBox, with_timers. fields.
      rewrite Htick. fields. split; [|done].
      apply (InFlight w _ fired (clock (world s) + 1000)
               (history ++ [SetTextContent 1 (decimal (timer s + 1) ++ lit "s")]));
        fields; try done.
      * apply lookup_insert_eq.
      * rewrite lookup_insert_ne by lia. done.
      * intros h H1 H2. rewrite lookup_insert_ne by done. by apply Hothers.
      * lia.
      * lia.
      * by rewrite Hlog, app_assoc.
      * by rewrite requests_app, Hreq.
      * by rewrite logged_app, Hlogged.
      * by rewrite alerts_app, Halerts.
      * by rewrite timers_started_app, Hstarted.
    + destruct (decide (h = next_handle w + 1)) as [-> | Hne2].
      * (* the timeout *)
        rewrite Hwait. destruct fired; [by split|].
        fields.
        destruct (clock w + 5000 <=? clock (world s)) eqn:Hdue; [|by split].
        apply N.leb_le in Hdue.
        cbn [run_callback]. rewrite waiting_result.
        unfold with_world, rearm, add_effect, with_responseBox, with_timers. fields.
        rewrite Hwait. fields. split; [|done].
        apply (InFlight w _ true next_tick
                 (history ++ [SetInnerHTML (still_working_content (timer s));
                              SetTextContent 1 (decimal (timer s) ++ lit "s")]));
          fields; try done.
        -- rewrite lookup_delete_ne by lia. done.
        -- apply lookup_delete_eq.
        -- intros h H1 H2. rewrite lookup_delete_ne by done. by apply Hothers.
        -- by rewrite Hlog, <- !app_assoc.
        -- by rewrite requests_app, Hreq.
        -- by rewrite logged_app, Hlogged.
        -- by rewrite alerts_app, Halerts.
        -- by rewrite timers_started_app, Hstarted.
      * (* no such timer *)
        rewrite (Hothers h Hne1 Hne2). by split.
Qed.

(** A terminal render of an in-flight call leaves it completed. *)
Lemma rendered_completed w s pre final :
  in_flight w s ->
  requests pre = [] ->
  alerts pre = [] ->
  timers_started pre = [] ->
  completed w (rendered pre final s).
Proof.
  intros [fired next_tick history Hpc HI HT Htick Hwait Hothers Hbox Hel Hnext
            Hlate Hlog Hreq Hlogged Halerts Hstarted] Hpre Hpre' Hpre''.
  apply (Completed w _ (history ++ pre)); unfold rendered; fields.
  - done.
  - rewrite HI, HT. cbn [stop_timer with_timers timers].
    apply map_eq. intros h. rewrite lookup_empty.
    destruct (decide (h = next_handle w)) as [-> | H1];
      [apply lookup_delete_eq | rewrite lookup_delete_ne by done].
    destruct (decide (h = next_handle w + 1)) as [-> | H2];
      [apply lookup_delete_eq | rewrite lookup_delete_ne by done].
    by apply Hothers.
  - by rewrite Hlog, HI, HT, <- !app_assoc.
  - by rewrite requests_app, Hreq, Hpre.
  - by rewrite alerts_app, Halerts, Hpre'.
  - by rewrite timers_started_app, Hstarted, Hpre''.
Qed.

(** Once completed, a call is touched by nothing but the clock. *)
Lemma step_completed w s ev :
  completed w s ->
  completed w (step ev s)
  /\ responseBox (world (step ev s)) = responseBox (world s)
  /\ log (world (step ev s)) = log (world s).
Proof.
  intros Hco. pose proof Hco as [before Hpc Htm Hlog Hreq Hal Hst].
  destruct ev as [ms | h | o | o | o]; unfold step.
  - split; [|done].
    by apply (Completed w _ before).
  - by rewrite Htm, lookup_empty.
  - by rewrite Hpc.
  - by rewrite Hpc.
  - by rewrite Hpc.
Qed.

(** One event takes an in-flight call to an in-flight or completed one. *)
Lemma step_in_flight w s ev :
  in_flight w s ->
  in_flight w (step ev s) \/ completed w (step ev s).
Proof.
  intros Hin. destruct (timer_event ev) eqn:Hev.
  { left. by apply step_timer_event. }
  pose proof Hin as [fired next_tick history Hpc HI HT Htick Hwait Hothers Hbox
                       Hel Hnext Hlate Hlog Hreq Hlogged Halerts Hstarted].
  destruct ev as [ms | h | [err | queryRes] | [err | text] | [err | data]];
    try discriminate; unfold step;
    destruct (pc s) eqn:Hp; try (by left);
    try (destruct Hpc as [? | [? | ?]]; discriminate).
  - right. rewrite after_fetch_rejected. by apply rendered_completed.
  - left. rewrite after_fetch_fulfilled.
    apply (InFlight w _ fired next_tick history); fields; try done.
    destruct (ok queryRes); tauto.
  - right. rewrite after_text_rejected. by apply rendered_completed.
  - right. rewrite after_text_fulfilled. by apply rendered_completed.
  - right. rewrite after_json_rejected. by apply rendered_completed.
  - right. rewrite after_json_fulfilled. by apply rendered_completed.
Qed.

Lemma run_app evs1 evs2 s : run (evs1 ++ evs2) s = run evs2 (run evs1 s).
Proof. apply fold_left_app. Qed.

Lemma run_cons ev evs s : run (ev :: evs) s = run evs (step ev s).
Proof. reflexivity. Qed.

Lemma run_completed w evs s :
  completed w s ->
  completed w (run evs s)
  /\ responseBox (world (run evs s)) = responseBox (world s)
  /\ log (world (run evs s)) = log (world s).
Proof.
  revert s. induction evs as [|ev evs IH]; intros s Hco; [done|].
  destruct (step_completed w s ev Hco) as (Hco' & Hbox & Hlog).
  destruct (IH _ Hco') as (Hco'' & Hbox' & Hlog').
  rewrite run_cons. by rewrite Hbox', Hlog'.
Qed.

Lemma run_in_flight w evs s :
  in_flight w s ->
  in_flight w (run evs s) \/ completed w (run evs s).
Proof.
  revert s. induction evs as [|ev evs IH]; intros s Hin; [by left|].
  rewrite run_cons.
  destruct (step_in_flight w s ev Hin) as [Hin' | Hco]; [by apply IH|].
  right. by apply run_completed.
Qed.

(** Timer events alone leave the call where it stands. *)
Lemma run_timer_events w evs s :
  in_flight w s ->
  forallb timer_event evs = true ->
  in_flight w (run evs s) /\ pc (run evs s) = pc s.
Proof.
  revert s. induction evs as [|ev evs IH]; intros s Hin Hevs; [done|].
  cbn [forallb] in Hevs. apply andb_true_iff in Hevs as [Hev Hevs].
  destruct (step_timer_event w s ev Hin Hev) as [Hin' Hpc].
  destruct (IH _ Hin' Hevs) as [Hin'' Hpc'].
  rewrite run_cons. split; [done | congruence].
Qed.

(** Every state a call on an idle page reaches. *)
Lemma reachable w evs :
  timers w = ∅ ->
  documentUrlInput w <> [] ->
  questionInput w <> [] ->
  in_flight w (run evs (click w)) \/ completed w (run evs (click w)).
Proof.
  intros Ht Hu Hq. apply run_in_flight. by apply click_in_flight.
Qed.

(** Every settlement that does not lead to another [await] ends the call:
    the rejection of [fetch], the text of an error response, read or not,
    and the JSON of a success response, parsed or not. *)
Lemma every_exit_returns s ev :
  match pc s, ev with
  | AwaitFetch, FetchSettled (inl _)
  | AwaitText, TextSettled _
  | AwaitJson, JsonSettled _ => pc (step ev s) = Returned
  | _, _ => True
  end.
Proof.
  destruct (pc s) eqn:Hpc; try done;
    destruct ev as [ms | h | [err | queryRes] | [err | text] | [err | data]];
    try done; unfold step; rewrite Hpc;
    rewrite ?after_fetch_rejected, ?after_text_rejected, ?after_text_fulfilled,
      ?after_json_rejected, ?after_json_fulfilled; done.
Qed.

End Reachable.

(** ** What no event changes *)

Section Frame.

Implicit Types (s : Sys) (w : World) (ev : Event).

(** A timer callback touches the output container and the counter, and
    nothing else. *)
Lemma run_callback_frame cb s :
  let s' := run_task (run_callback cb) s in
  pc s' = pc s
  /\ timers (world s') = timers (world s)
  /\ clock (world s') = clock (world s)
  /\ exists added,
       log (world s') = log (world s) ++ added
       /\ requests added = [] /\ logged added = [] /\ alerts added = [].
Proof.
  open_sys s. destruct cb; cbn [run_callback]; unfold tick, waiting; js_run;
    rewrite updateTimer_result; js_run.
  - destruct (find_id (lit "timerSpan") box); js_run; repeat split.
    + by eexists [_].
    + exists []. by rewrite app_nil_r.
  - change (find_id (lit "timerSpan") (still_working_content n))
      with (Some 1%nat).
    js_run. repeat split. eexists [_; _]. by rewrite <- app_assoc.
Qed.

Lemma rearm_frame h w :
  log (rearm h w) = log w /\ clock (rearm h w) = clock w
  /\ responseBox (rearm h w) = responseBox w.
Proof.
  unfold rearm. destruct (timers w !! h) as [t|]; [|done].
  by destruct (repeating t).
Qed.

(** The timers leave the function where it stands, and send, log and
    alert nothing. *)
Lemma step_timer_frame s ev :
  timer_event ev = true ->
  pc (step ev s) = pc s
  /\ requests (log (world (step ev s))) = requests (log (world s))
  /\ logged (log (world (step ev s))) = logged (log (world s))
  /\ alerts (log (world (step ev s))) = alerts (log (world s)).
Proof.
  intros Hev. destruct ev as [ms | h | | | ]; try discriminate; unfold step.
  - done.
  - destruct (timers (world s) !! h) as [t|]; [|done].
    destruct (due t <=? clock (world s)); [|done].
    destruct (run_callback_frame (callback t) s)
      as (Hpc & _ & _ & added & Hlog & Hr & Hl & Ha).
    unfold with_world. fields.
    destruct (rearm_frame h (world (run_task (run_callback (callback t)) s)))
      as (-> & _ & _).
    rewrite Hlog, requests_app, logged_app, alerts_app, Hr, Hl, Ha, !app_nil_r.
    done.
Qed.

Lemma run_timer_frame s evs :
  forallb timer_event evs = true ->
  pc (run evs s) = pc s
  /\ requests (log (world (run evs s))) = requests (log (world s))
  /\ logged (log (world (run evs s))) = logged (log (world s))
  /\ alerts (log (world (run evs s))) = alerts (log (world s)).
Proof.
  revert s. induction evs as [|ev evs IH]; intros s Hevs; [done|].
  cbn [forallb] in Hevs. apply andb_true_iff in Hevs as [Hev Hevs].
  rewrite run_cons.
  destruct (step_timer_frame s ev Hev) as (<- & <- & <- & <-).
  by apply IH.
Qed.

Lemma rendered_requests pre final s :
  requests pre = [] ->
  requests (log (world (rendered pre final s))) = requests (log (world s)).
Proof.
  intros Hpre. unfold rendered. fields.
  by rewrite !requests_app, Hpre, !app_nil_r.
Qed.

(** No event sends a request: [fetch] is called once, by the call itself. *)
Lemma step_requests s ev :
  requests (log (world (step ev s))) = requests (log (world s)).
Proof.
  destruct (timer_event ev) eqn:Hev; [by apply step_timer_frame|].
  destruct ev as [ms | h | [err | queryRes] | [err | text] | [err | data]];
    try discriminate; unfold step; destruct (pc s); try done.
  - rewrite after_fetch_rejected. by apply rendered_requests.
  - by rewrite after_fetch_fulfilled.
  - rewrite after_text_rejected. by apply rendered_requests.
  - rewrite after_text_fulfilled. by apply rendered_requests.
  - rewrite after_json_rejected. by apply rendered_requests.
  - rewrite after_json_fulfilled. by apply rendered_requests.
Qed.

Lemma run_requests s evs :
  requests (log (world (run evs s))) = requests (log (world s)).
Proof.
  revert s. induction evs as [|ev evs IH]; intros s; [done|].
  by rewrite run_cons, IH, step_requests.
Qed.

End Frame.

(** ** Timers that fire on time *)

Section OnTime.

Implicit Types (s : Sys) (w : World) (n : nat).

(** The interval fires while the loading markup is shown. *)
Lemma fire_interval s h d fired :
  timers (world s) !! h = Some (mkTimer TickCb 1000 true d) ->
  d <= clock (world s) ->
  responseBox (world s) = loading_content fired (timer s) ->
  let s' := step (Fire h) s in
  timer s' = timer s + 1
  /\ pc s' = pc s
  /\ clock (world s') = clock (world s)
  /\ responseBox (world s') = loading_content fired (timer s + 1)
  /\ timers (world s')
     = <[h := mkTimer TickCb 1000 true (clock (world s) + 1000)]>
         (timers (world s)).
Proof.
  intros Hh Hd Hbox. cbn zeta. unfold step. rewrite Hh. fields.
  apply N.leb_le in Hd. rewrite Hd. cbn [run_callback].
  rewrite (tick_loading s fired Hbox).
  unfold with_world, rearm, add_effect, with_responseBox, with_timers. fields.
  rewrite Hh. fields. done.
Qed.

(** The timeout fires. *)
Lemma fire_timeout s h d :
  timers (world s) !! h = Some (mkTimer WaitingCb 5000 false d) ->
  d <= clock (world s) ->
  let s' := step (Fire h) s in
  timer s' = timer s
  /\ pc s' = pc s
  /\ clock (world s') = clock (world s)
  /\ responseBox (world s') = loading_content true (timer s)
  /\ timers (world s') = delete h (timers (world s)).
Proof.
  intros Hh Hd. cbn zeta. unfold step. rewrite Hh. fields.
  apply N.leb_le in Hd. rewrite Hd. cbn [run_callback].
  rewrite waiting_result.
  unfold with_world, rearm, add_effect, with_responseBox, with_timers. fields.
  rewrite Hh. fields. done.
Qed.

Lemma second_events_timers hI hT wf k :
  forallb timer_event (second_events hI hT wf k) = true.
Proof. unfold second_events. by destruct (k =? 5)%nat, wf. Qed.

Lemma on_time_timers hI hT wf n :
  forallb timer_event (on_time hI hT wf n) = true.
Proof.
  unfold on_time. apply forallb_forall. intros ev Hev.
  apply in_flat_map in Hev as (k & _ & Hev).
  pose proof (second_events_timers hI hT wf k) as H.
  rewrite forallb_forall in H. by apply H.
Qed.

(** One more second on schedule. *)
Lemma on_schedule_second w n s wf :
  on_schedule w n s ->
  on_schedule w (S n)
    (run (second_events (next_handle w) (next_handle w + 1) wf (S n)) s).
Proof.
  intros [Hin Hpc Htimer Hclock Htick Hwait Hbox].
  destruct (run_timer_events w
              (second_events (next_handle w) (next_handle w + 1) wf (S n)) s
              Hin (second_events_timers _ _ _ _)) as [Hin' Hpc'].
  set (s1 := step (Elapse 1000) s).
  assert (timer s1 = timer s /\ clock (world s1) = clock (world s) + 1000
          /\ responseBox (world s1) = responseBox (world s)
          /\ timers (world s1) = timers (world s)) as (Ht1 & Hc1 & Hb1 & Hm1)
    by done.
  assert (clock w + 1000 * (N.of_nat n + 1) <= clock (world s1)) as Hdue
    by (rewrite Hc1, Hclock; lia).
  unfold second_events in *.
  destruct (S n =? 5)%nat eqn:Hfive.
  - apply Nat.eqb_eq in Hfive. assert (n = 4%nat) as -> by lia.
    change (5 <=? 4)%nat with false in *.
    assert (clock w + 5000 <= clock (world s1)) as Hdue5
      by (rewrite Hc1, Hclock; lia).
    destruct wf.
    + (* the timeout first, then the interval *)
      set (s2 := step (Fire (next_handle w + 1)) s1).
      destruct (fire_timeout s1 (next_handle w + 1) (clock w + 5000))
        as (Ht2 & _ & Hc2 & Hb2 & Hm2); [by rewrite Hm1 | done |].
      fold s2 in Ht2, Hc2, Hb2, Hm2.
      destruct (fire_interval s2 (next_handle w)
                  (clock w + 1000 * (N.of_nat 4 + 1)) true)
        as (Ht3 & _ & Hc3 & Hb3 & Hm3).
      { rewrite Hm2, lookup_delete_ne by lia. by rewrite Hm1. }
      { by rewrite Hc2. }
      { by rewrite Hb2, Ht2. }
      change (run _ s) with (step (Fire (next_handle w)) s2) in *.
      split; try done; try congruence.
      * rewrite Ht3, Ht2, Ht1, Htimer. lia.
      * rewrite Hc3, Hc2, Hc1, Hclock. lia.
      * rewrite Hm3, lookup_insert_eq, Hc2, Hc1, Hclock. do 2 f_equal. lia.
      * rewrite Hm3, lookup_insert_ne, Hm2 by lia. apply lookup_delete_eq.
      * rewrite Hb3, Ht2, Ht1, Htimer. done.
    + (* the interval first, then the timeout *)
      set (s2 := step (Fire (next_handle w)) s1).
      destruct (fire_interval s1 (next_handle w)
                  (clock w + 1000 * (N.of_nat 4 + 1)) false)
        as (Ht2 & _ & Hc2 & Hb2 & Hm2);
        [by rewrite Hm1 | done | by rewrite Hb1, Ht1, Htimer |].
      fold s2 in Ht2, Hc2, Hb2, Hm2.
      destruct (fire_timeout s2 (next_handle w + 1) (clock w + 5000))
        as (Ht3 & _ & Hc3 & Hb3 & Hm3).
      { rewrite Hm2, lookup_insert_ne by lia. by rewrite Hm1. }
      { by rewrite Hc2. }
      change (run _ s) with (step (Fire (next_handle w + 1)) s2) in *.
      split; try done; try congruence.
      * rewrite Ht3, Ht2, Ht1, Htimer. lia.
      * rewrite Hc3, Hc2, Hc1, Hclock. lia.
      * rewrite Hm3, lookup_delete_ne, Hm2, lookup_insert_eq, Hc1, Hclock by lia.
        do 2 f_equal. lia.
      * rewrite Hm3. apply lookup_delete_eq.
      * rewrite Hb3, Ht2, Ht1, Htimer. done.
  - apply Nat.eqb_neq in Hfive.
    assert ((5 <=? S n)%nat = (5 <=? n)%nat) as Hsame.
    { destruct (5 <=? n)%nat eqn:E1, (5 <=? S n)%nat eqn:E2; try done;
        [apply Nat.leb_le in E1; apply Nat.leb_gt in E2
        |apply Nat.leb_gt in E1; apply Nat.leb_le in E2]; lia. }
    set (s2 := step (Fire (next_handle w)) s1).
    destruct (fire_interval s1 (next_handle w)
                (clock w + 1000 * (N.of_nat n + 1)) (5 <=? n)%nat)
      as (Ht2 & _ & Hc2 & Hb2 & Hm2);
      [by rewrite Hm1 | done | by rewrite Hb1, Ht1, Htimer |].
    fold s2 in Ht2, Hc2, Hb2, Hm2.
    change (run _ s) with s2 in *.
    split; try done; try congruence.
    + rewrite Ht2, Ht1, Htimer. lia.
    + rewrite Hc2, Hc1, Hclock. lia.
    + rewrite Hm2, lookup_insert_eq, Hc1, Hclock. do 2 f_equal. lia.
    + rewrite Hm2, lookup_insert_ne, Hm1, Hsame by lia. done.
    + rewrite Hb2, Ht1, Htimer, Hsame. do 2 f_equal. lia.
Qed.

(** [n] seconds on schedule. *)
Lemma on_schedule_run w n wf :
  timers w = ∅ ->
  documentUrlInput w <> [] ->
  questionInput w <> [] ->
  on_schedule w n
    (run (on_time (next_handle w) (next_handle w + 1) wf n) (click w)).
Proof.
  intros Ht Hu Hq. induction n as [|n IH].
  - destruct (click_in_flight w Ht Hu Hq) as [Hin Hpc].
    cbn [on_time seq flat_map run fold_left].
    split; try done; rewrite (click_valid w Hu Hq); fields; try done; try lia.
    + rewrite lookup_insert_ne by lia. by rewrite lookup_insert_eq.
    + apply lookup_insert_eq.
  - unfold on_time. rewrite seq_S, flat_map_app, run_app.
    cbn [flat_map]. rewrite app_nil_r.
    by apply on_schedule_second.
Qed.

End OnTime.

(** ** The markup, as the source spells it *)

Section Templates.

Lemma thinking_source :
  innerHTML thinking_content
  = lit "<span class=" ++ dq ++ lit "loader" ++ dq
    ++ lit "></span> <span>Thinking... Please wait while we analyze your document and questions. <span id='timerSpan'>0s</span></span>".
Proof. reflexivity. Qed.

Lemma still_working_source (n : N) :
  innerHTML (still_working_content n)
  = lit "<span class=" ++ dq ++ lit "loader" ++ dq
    ++ lit "></span> <span>Still working... This may take a few more seconds for large documents or complex questions.<br><span class='waiting-msg'>Thank you for your patience!</span> <span id='timerSpan'>"
    ++ decimal n ++ lit "s</span></span>".
Proof.
  unfold innerHTML, still_working_content. cbn [map concat node_html].
  rewrite <- !app_assoc. reflexivity.
Qed.

Lemma answer_source (n : N) (data : Json) :
  innerHTML (answer_content n data)
  = lit "<div style=" ++ dq
    ++ lit "margin-bottom:8px;color:var(--accent);font-size:0.98em;" ++ dq
    ++ lit ">" ++ stopwatch ++ lit " Answer loaded in <b>" ++ decimal n
    ++ lit "s</b></div><pre>" ++ JSON_stringify data 2 ++ lit "</pre>".
Proof.
  unfold innerHTML, answer_content, elapsed_line. cbn [map concat node_html].
  rewrite app_nil_r, <- !app_assoc. reflexivity.
Qed.

Lemma connect_error_source :
  innerHTML connect_error_content
  = lit "<b style=" ++ dq ++ lit "color:red" ++ dq ++ lit ">" ++ cross_mark
    ++ lit " Error:</b> Could not connect to backend server.".
Proof. reflexivity. Qed.

Lemma error_source (msg : jsstring) :
  innerHTML (error_content msg)
  = lit "<b style=" ++ dq ++ lit "color:red" ++ dq ++ lit ">" ++ cross_mark
    ++ lit " Error:</b> " ++ msg.
Proof.
  unfold innerHTML, error_content, error_label. cbn [map concat node_html].
  rewrite app_nil_r, <- !app_assoc. reflexivity.
Qed.

Lemma starts_with_app (p rest : jsstring) : starts_with p (p ++ rest) = true.
Proof.
  induction p as [|c p IH]; [done|]. cbn [starts_with app].
  by rewrite N.eqb_refl, IH.
Qed.

Lemma includes_app (before p after : jsstring) :
  includes (before ++ p ++ after) p = true.
Proof.
  induction before as [|c before IH].
  - cbn [app]. destruct (p ++ after) eqn:E; cbn [includes];
      rewrite <- E, starts_with_app; done.
  - cbn [app includes]. rewrite IH. apply orb_true_r.
Qed.

Lemma includes_end (before p : jsstring) : includes (before ++ p) p = true.
Proof. rewrite <- (app_nil_r p) at 1. apply includes_app. Qed.

End Templates.

(** * The behaviour of [submitForm] *)

(** C1: when both inputs are non-empty, the call sends exactly one request,
    whatever the timers and the network do afterwards: a POST to
    [/hackrx/run] with the three headers, whose body is the JSON text of the
    object with [documents] the document URL and [questions] the questions
    text split on commas, trimmed and rid of its empty pieces. *)
Theorem submitForm_sends_one_request (w : World) (evs : list Event) :
  documentUrlInput w <> [] ->
  questionInput w <> [] ->
  requests (log (world (run evs (click w))))
  = requests (log w)
    ++ [ mkRequest (lit "/hackrx/run") (lit "POST")
           [ (lit "Content-Type", lit "application/json");
             (lit "Authorization", lit "Bearer hackrx-secret-token");
             (lit "Accept", lit "application/json") ]
           (JSON_stringify
              (JObject
                 [ (lit "documents", JString (documentUrlInput w));
                   (lit "questions",
                    JArray (map JString
                              (comma_split_trim_filter (questionInput w)))) ])
              0) ].
Proof.
  intros Hu Hq. rewrite run_requests, (click_valid w Hu Hq). fields.
  rewrite requests_app, <- questions_of_spec. reflexivity.
Qed.

Lemma submitForm_sends_one_request_witness :
  requests (log (world (run [Elapse 1000; Fire 1; FetchSettled (inr (mkResponse 200))]
                          (click sample_page))))
  = [ mkRequest (lit "/hackrx/run") (lit "POST")
        [ (lit "Content-Type", lit "application/json");
          (lit "Authorization", lit "Bearer hackrx-secret-token");
          (lit "Accept", lit "application/json") ]
        (JSON_stringify
           (JObject
              [ (lit "documents", JString (lit "https://example.com/policy.pdf"));
                (lit "questions",
                 JArray [JString (lit "a"); JString (lit "b"); JString (lit "c")]) ])
           0) ].
Proof.
  apply (submitForm_sends_one_request sample_page
           [Elapse 1000; Fire 1; FetchSettled (inr (mkResponse 200))]);
    discriminate.
Defined.

(** C2: the questions sent are the questions text split on commas, each
    piece trimmed of whitespace, the empty pieces dropped, in their order
    and with their repetitions; "a, b ,,c" gives "a", "b", "c". *)
Theorem questions_are_split_trimmed_filtered (questionsText : jsstring) :
  questions_of questionsText = comma_split_trim_filter questionsText
  /\ questions_of (lit "a, b ,,c") = [lit "a"; lit "b"; lit "c"]
  /\ questions_of (lit "b ,a, b") = [lit "b"; lit "a"; lit "b"].
Proof. split; [apply questions_of_spec | by split]. Qed.

(** C3: when an input is empty the call shows the alert and returns: it
    sends no request, starts no timer, and leaves the output container as
    it was. *)
Theorem empty_input_only_alerts (w : World) :
  documentUrlInput w = [] \/ questionInput w = [] ->
  pc (click w) = Returned
  /\ log (world (click w))
     = log w ++ [Alert (lit "Please enter a document URL and your questions.")]
  /\ requests (log (world (click w))) = requests (log w)
  /\ timers_started (log (world (click w))) = timers_started (log w)
  /\ timers (world (click w)) = timers w
  /\ responseBox (world (click w)) = responseBox w.
Proof.
  intros H. rewrite (click_invalid w H). unfold add_effect. fields.
  rewrite requests_app, timers_started_app, !app_nil_r. done.
Qed.

Lemma empty_input_only_alerts_witness :
  pc (click empty_questions_page) = Returned
  /\ log (world (click empty_questions_page))
     = [Alert (lit "Please enter a document URL and your questions.")]
  /\ requests (log (world (click empty_questions_page))) = []
  /\ timers_started (log (world (click empty_questions_page))) = []
  /\ timers (world (click empty_questions_page)) = ∅
  /\ responseBox (world (click empty_questions_page)) = [Html (lit "old")].
Proof. apply (empty_input_only_alerts empty_questions_page). by right. Defined.

(** C4: whenever the call ends in a terminal render, on whichever path, the
    last three things it does are to clear the timeout, to clear the
    interval and to write the final output, in that order; no timer is
    left, and nothing that happens afterwards changes the output container
    or adds an effect. *)
Theorem timers_cleared_before_terminal_render (w : World) (evs : list Event) :
  timers w = ∅ ->
  documentUrlInput w <> [] ->
  questionInput w <> [] ->
  pc (run evs (click w)) = Returned ->
  (exists before,
     log (world (run evs (click w)))
     = log w ++ before
       ++ [ClearTimeout (Some (next_handle w + 1));
           ClearInterval (Some (next_handle w));
           SetInnerHTML (responseBox (world (run evs (click w))))]
     /\ timers_started before
        = [SetInterval (next_handle w) TickCb 1000;
           SetTimeout (next_handle w + 1) WaitingCb 5000])
  /\ timers (world (run evs (click w))) = ∅
  /\ forall later,
       responseBox (world (run later (run evs (click w))))
       = responseBox (world (run evs (click w)))
       /\ log (world (run later (run evs (click w))))
          = log (world (run evs (click w))).
Proof.
  intros Ht Hu Hq Hpc.
  destruct (reachable w evs Ht Hu Hq) as [Hin | Hco].
  - destruct Hin as [? ? ? [H | [H | H]]]; congruence.
  - pose proof Hco as [before _ Htm Hlog _ _ Hst].
    split; [by exists before|]. split; [done|].
    intros later. by destruct (run_completed w later _ Hco) as (_ & ? & ?).
Qed.

Lemma timers_cleared_before_terminal_render_witness :
  let evs := [Elapse 5000; Fire 2; Fire 1; FetchSettled (inl (mkError TypeError (lit "Failed to fetch")))] in
  (exists before,
     log (world (run evs (click sample_page)))
     = log sample_page ++ before
       ++ [ClearTimeout (Some 2); ClearInterval (Some 1);
           SetInnerHTML (responseBox (world (run evs (click sample_page))))]
     /\ timers_started before
        = [SetInterval 1 TickCb 1000; SetTimeout 2 WaitingCb 5000])
  /\ timers (world (run evs (click sample_page))) = ∅
  /\ forall later,
       responseBox (world (run later (run evs (click sample_page))))
       = responseBox (world (run evs (click sample_page)))
       /\ log (world (run later (run evs (click sample_page))))
          = log (world (run evs (click sample_page))).
Proof.
  intros evs.
  apply (timers_cleared_before_terminal_render sample_page evs);
    [reflexivity | discriminate | discriminate | reflexivity].
Defined.



(** The failure of [fetch] itself reaches the [catch] block. *)
Lemma fetch_rejection_is_caught (s : Sys) (err : JsError) :
  pc s = AwaitFetch ->
  step (FetchSettled (inl err)) s
  = run_task (catch_block err;; set_pc Returned) s.
Proof.
  intros Hpc. unfold step. rewrite Hpc, after_fetch_rejected.
  by rewrite catch_block_result.
Qed.

(** With a response in hand and the timers doing what they will, the
    function waits for the body: for its text when the status is not a
    success, for its JSON when it is. Nothing has been logged yet. *)
Lemma awaiting_body (w : World) (evs1 evs2 : list Event) (queryRes : Response) :
  documentUrlInput w <> [] ->
  questionInput w <> [] ->
  forallb timer_event evs1 = true ->
  forallb timer_event evs2 = true ->
  let s := run (evs1 ++ FetchSettled (inr queryRes) :: evs2) (click w) in
  pc s = (if ok queryRes then AwaitJson else AwaitText)
  /\ logged (log (world s)) = logged (log w).
Proof.
  intros Hu Hq H1 H2 s. subst s. rewrite run_app, run_cons.
  destruct (run_timer_frame (click w) evs1 H1) as (Hpc1 & _ & Hl1 & _).
  rewrite (click_valid w Hu Hq) in Hpc1 at 2. rewrite (click_valid w Hu Hq) in Hl1 at 2.
  revert Hpc1 Hl1. fields. rewrite logged_app, app_nil_r. intros Hpc1 Hl1.
  destruct (run_timer_frame (step (FetchSettled (inr queryRes)) (run evs1 (click w)))
              evs2 H2) as (-> & _ & -> & _).
  unfold step. rewrite Hpc1, after_fetch_fulfilled. fields. done.
Qed.

(** C6, as the code has it: a response whose status is not a success ends
    in an error whose message is "Query failed: " followed by the text of
    the body; that error is logged and its message rendered, so the output
    contains the text of the body. *)
Theorem http_error_renders_body_text
    (w : World) (evs1 evs2 : list Event) (queryRes : Response) (text : jsstring) :
  documentUrlInput w <> [] ->
  questionInput w <> [] ->
  forallb timer_event evs1 = true ->
  forallb timer_event evs2 = true ->
  ok queryRes = false ->
  let s := run (evs1 ++ FetchSettled (inr queryRes) :: evs2
                ++ [TextSettled (inr text)]) (click w) in
  pc s = Returned
  /\ logged (log (world s))
     = logged (log w) ++ [mkError BaseError (lit "Query failed: " ++ text)]
  /\ innerHTML (responseBox (world s))
     = lit "<b style=" ++ dq ++ lit "color:red" ++ dq ++ lit ">" ++ cross_mark
       ++ lit " Error:</b> " ++ lit "Query failed: " ++ text
  /\ includes (innerHTML (responseBox (world s))) text = true.
Proof.
  intros Hu Hq H1 H2 Hok s. subst s.
  rewrite app_comm_cons, app_assoc, run_app.
  destruct (awaiting_body w evs1 evs2 queryRes Hu Hq H1 H2) as [Hpc Hlogged].
  rewrite Hok in Hpc.
  change (run [TextSettled (inr text)] ?s) with (step (TextSettled (inr text)) s).
  unfold step. rewrite Hpc, after_text_fulfilled. unfold rendered. fields.
  rewrite !logged_app, Hlogged, error_source.
  split; [done|]. split; [done|]. split; [done|].
  rewrite !app_assoc. apply includes_end.
Qed.

Lemma http_error_renders_body_text_witness :
  let s := run ([Elapse 1000; Fire 1]
                ++ FetchSettled (inr (mkResponse 500)) :: []
                ++ [TextSettled (inr (lit "server exploded"))])
             (click sample_page) in
  pc s = Returned
  /\ logged (log (world s))
     = [mkError BaseError (lit "Query failed: " ++ lit "server exploded")]
  /\ innerHTML (responseBox (world s))
     = lit "<b style=" ++ dq ++ lit "color:red" ++ dq ++ lit ">" ++ cross_mark
       ++ lit " Error:</b> " ++ lit "Query failed: " ++ lit "server exploded"
  /\ includes (innerHTML (responseBox (world s))) (lit "server exploded") = true.
Proof.
  apply (http_error_renders_body_text sample_page [Elapse 1000; Fire 1] []
           (mkResponse 500) (lit "server exploded"));
    [discriminate | discriminate | reflexivity | reflexivity | reflexivity].
Defined.

(** C6, as the claim words it, fails: on a 500 response with the body
    "server exploded" the error caught has the message
    "Query failed: server exploded", not the text of the body. *)
Lemma http_500_message_is_not_the_body_text :
  let s := run [FetchSettled (inr (mkResponse 500));
                TextSettled (inr (lit "server exploded"))]
             (click sample_page) in
  exists err,
    logged (log (world s)) = [err]
    /\ message err = lit "Query failed: server exploded"
    /\ message err <> lit "server exploded".
Proof.
  exists (mkError BaseError (lit "Query failed: server exploded")).
  split; [reflexivity|]. split; [reflexivity | discriminate].
Qed.

(** C7: on a success status the function waits for the JSON of the body
    and, once it has it, writes a line giving the elapsed seconds, the
    value the counter has at that moment, followed by the JSON text printed
    with an indentation of two inside a [<pre>] block. *)
Theorem success_renders_pretty_json
    (w : World) (evs1 evs2 : list Event) (queryRes : Response) (data : Json) :
  documentUrlInput w <> [] ->
  questionInput w <> [] ->
  forallb timer_event evs1 = true ->
  forallb timer_event evs2 = true ->
  ok queryRes = true ->
  let s0 := run (evs1 ++ FetchSettled (inr queryRes) :: evs2) (click w) in
  let s := step (JsonSettled (inr data)) s0 in
  pc s0 = AwaitJson
  /\ pc s = Returned
  /\ timer s = timer s0
  /\ innerHTML (responseBox (world s))
     = lit "<div style=" ++ dq
       ++ lit "margin-bottom:8px;color:var(--accent);font-size:0.98em;" ++ dq
       ++ lit ">" ++ stopwatch ++ lit " Answer loaded in <b>"
       ++ decimal (timer s) ++ lit "s</b></div><pre>"
       ++ JSON_stringify data 2 ++ lit "</pre>"
  /\ logged (log (world s)) = logged (log w).
Proof.
  intros Hu Hq H1 H2 Hok s0 s. subst s s0.
  destruct (awaiting_body w evs1 evs2 queryRes Hu Hq H1 H2) as [Hpc Hlogged].
  rewrite Hok in Hpc. split; [done|].
  unfold step. rewrite Hpc, after_json_fulfilled. unfold rendered. fields.
  rewrite answer_source, !logged_app, Hlogged. by rewrite !app_nil_r.
Qed.

Lemma success_renders_pretty_json_witness :
  let data := JObject [(lit "answers", JArray [JString (lit "x")])] in
  let s0 := run ([Elapse 1000; Fire 1; Elapse 1000; Fire 1]
                 ++ FetchSettled (inr (mkResponse 200)) :: [Elapse 1000; Fire 1])
              (click sample_page) in
  let s := step (JsonSettled (inr data)) s0 in
  pc s0 = AwaitJson
  /\ pc s = Returned
  /\ timer s = timer s0
  /\ innerHTML (responseBox (world s))
     = lit "<div style=" ++ dq
       ++ lit "margin-bottom:8px;color:var(--accent);font-size:0.98em;" ++ dq
       ++ lit ">" ++ stopwatch ++ lit " Answer loaded in <b>"
       ++ decimal (timer s) ++ lit "s</b></div><pre>"
       ++ JSON_stringify data 2 ++ lit "</pre>"
  /\ logged (log (world s)) = logged (log sample_page).
Proof.
  intros data.
  apply (success_renders_pretty_json sample_page
           [Elapse 1000; Fire 1; Elapse 1000; Fire 1] [Elapse 1000; Fire 1]
           (mkResponse 200) data);
    [discriminate | discriminate | reflexivity | reflexivity | reflexivity].
Defined.

(** The response with the body [{"answers":["x"]}], three seconds in: the
    output is the elapsed-time line and the JSON on five lines. *)
Example answers_x_rendered :
  let data := JObject [(lit "answers", JArray [JString (lit "x")])] in
  let s := run [Elapse 1000; Fire 1; Elapse 1000; Fire 1;
                FetchSettled (inr (mkResponse 200)); Elapse 1000; Fire 1;
                JsonSettled (inr data)]
             (click sample_page) in
  innerHTML (responseBox (world s))
  = lit "<div style=" ++ dq
    ++ lit "margin-bottom:8px;color:var(--accent);font-size:0.98em;" ++ dq
    ++ lit ">" ++ stopwatch ++ lit " Answer loaded in <b>3s</b></div><pre>{"
    ++ newline ++ lit "  " ++ dq ++ lit "answers" ++ dq ++ lit ": ["
    ++ newline ++ lit "    " ++ dq ++ lit "x" ++ dq
    ++ newline ++ lit "  ]"
    ++ newline ++ lit "}</pre>".
Proof. reflexivity. Qed.

(** The timeout fires: the counter stays, the output container is
    assigned the "still working" markup whole, span included, and the span
    is then set to the counter. *)
Lemma fire_timeout_writes (s : Sys) (h d : N) :
  timers (world s) !! h = Some (mkTimer WaitingCb 5000 false d) ->
  d <= clock (world s) ->
  timer (step (Fire h) s) = timer s
  /\ responseBox (world (step (Fire h) s)) = still_working_content (timer s)
  /\ log (world (step (Fire h) s))
     = log (world s)
       ++ [SetInnerHTML (still_working_content (timer s));
           SetTextContent 1 (decimal (timer s) ++ lit "s")].
Proof.
  intros Hh Hd. unfold step. rewrite Hh. fields.
  apply N.leb_le in Hd. rewrite Hd. cbn [run_callback].
  rewrite waiting_result.
  unfold with_world, rearm, add_effect, with_responseBox, with_timers. fields.
  rewrite Hh. fields. by rewrite <- app_assoc.
Qed.

(** C8, as the claim words it, fails: the number in the span is the number
    of ticks that have run, not the whole seconds elapsed. When the browser
    runs the first tick 2500 ms after the call, two whole seconds have
    elapsed and the span reads "1s"; the interval, armed again from that
    moment, is not due a second time. Nor is the span moved into the new
    markup: when the timeout runs, five seconds in, the container is
    assigned the "still working" markup whole, with a span of its own. *)
Lemma late_tick_undercounts_the_seconds :
  let s := run [Elapse 2500; Fire 1; Fire 1] (click sample_page) in
  let s5 := run [Elapse 5000; Fire 2] (click sample_page) in
  (clock (world s) - clock sample_page) / 1000 = 2
  /\ timer s = 1
  /\ responseBox (world s) !! 1%nat
     = Some (IdSpan (lit "timerSpan") (lit "1s"))
  /\ lit "1s" <> decimal 2 ++ lit "s"
  /\ log (world s5)
     = log (world (click sample_page))
       ++ [SetInnerHTML (still_working_content 0);
           SetTextContent 1 (lit "0s")].
Proof. repeat split. discriminate. Qed.

(** C8, as the code has it: once the inputs are accepted the call writes
    the "thinking" markup, whose span reads "0s", and starts an interval of
    one second and a timeout of five. Until the call returns, whatever the
    timing: the output container holds the "thinking" markup or, no sooner
    than five seconds after the call, the "still working" markup, and the
    span in it reads the counter; the counter is at most the whole seconds
    elapsed; a tick that runs adds one to the counter and sets the span to
    it; the timeout, when it runs, assigns the "still working" markup whole
    to the container, a new span of the same id included, showing the
    counter. When every timer runs the moment it is due, the counter and
    the span give the whole seconds elapsed, and the "still working" markup
    is there from the fifth second on. *)
Theorem loading_feedback_counts_ticks (w : World) :
  timers w = ∅ ->
  documentUrlInput w <> [] ->
  questionInput w <> [] ->
  let thinking := fun n : N =>
    [ Html (lit "<span class=" ++ dq ++ lit "loader" ++ dq
            ++ lit "></span> <span>Thinking... Please wait while we analyze your document and questions. ");
      IdSpan (lit "timerSpan") (decimal n ++ lit "s");
      Html (lit "</span>") ] in
  let still_working := fun n : N =>
    [ Html (lit "<span class=" ++ dq ++ lit "loader" ++ dq
            ++ lit "></span> <span>Still working... This may take a few more seconds for large documents or complex questions.<br><span class='waiting-msg'>Thank you for your patience!</span> ");
      IdSpan (lit "timerSpan") (decimal n ++ lit "s");
      Html (lit "</span>") ] in
  let hI := next_handle w in
  let hT := next_handle w + 1 in
  (timers_started (log (world (click w)))
   = timers_started (log w)
     ++ [SetInterval hI TickCb 1000; SetTimeout hT WaitingCb 5000]
   /\ responseBox (world (click w)) = thinking 0
   /\ timer (click w) = 0)
  /\ (forall evs,
        let s := run evs (click w) in
        pc s <> Returned ->
        exists fired : bool,
          responseBox (world s)
          = (if fired then still_working (timer s) else thinking (timer s))
          /\ (fired = true -> clock w + 5000 <= clock (world s))
          /\ timer s <= (clock (world s) - clock w) / 1000
          /\ (forall t,
                timers (world s) !! hI = Some t ->
                due t <= clock (world s) ->
                timer (step (Fire hI) s) = timer s + 1
                /\ responseBox (world (step (Fire hI) s))
                   = (if fired then still_working (timer s + 1)
                      else thinking (timer s + 1)))
          /\ (forall t,
                timers (world s) !! hT = Some t ->
                due t <= clock (world s) ->
                fired = false
                /\ timer (step (Fire hT) s) = timer s
                /\ responseBox (world (step (Fire hT) s))
                   = still_working (timer s)
                /\ log (world (step (Fire hT) s))
                   = log (world s)
                     ++ [SetInnerHTML (still_working (timer s));
                         SetTextContent 1 (decimal (timer s) ++ lit "s")]))
  /\ (forall (n : nat) (waiting_first : bool),
        let s := run (on_time hI hT waiting_first n) (click w) in
        pc s = AwaitFetch
        /\ clock (world s) = clock w + 1000 * N.of_nat n
        /\ timer s = N.of_nat n
        /\ responseBox (world s)
           = if (5 <=? n)%nat then still_working (N.of_nat n)
             else thinking (N.of_nat n)).
Proof.
  intros Ht Hu Hq thinking still_working hI hT. subst hI hT.
  split; [|split].
  - rewrite (click_valid w Hu Hq). fields.
    by rewrite timers_started_app.
  - intros evs s Hpc.
    destruct (reachable w evs Ht Hu Hq) as [Hin | Hco];
      [|by destruct Hco as [? ?]].
    destruct Hin as [fired next_tick history _ _ _ Htick Hwait _ Hbox Hel _ Hlate
                       _ _ _ _ _].
    fold s in Htick, Hwait, Hbox, Hel, Hlate.
    exists fired. split; [by destruct fired|]. split; [done|]. split; [|split].
    + apply N.div_le_lower_bound; [done | lia].
    + intros t Hlook Hdue. rewrite Htick in Hlook.
      injection Hlook as <-. cbn [due] in Hdue.
      destruct (fire_interval s (next_handle w) next_tick fired Htick Hdue Hbox)
        as (Htimer & _ & _ & Hbox' & _).
      split; [done|]. rewrite Hbox'. by destruct fired.
    + intros t Hlook Hdue. rewrite Hwait in Hlook.
      destruct fired; [done|]. injection Hlook as <-. cbn [due] in Hdue.
      destruct (fire_timeout_writes s (next_handle w + 1) (clock w + 5000)
                  Hwait Hdue) as (Htimer & Hbox' & Hlog').
      done.
  - intros n waiting_first s.
    destruct (on_schedule_run w n waiting_first Ht Hu Hq)
      as [_ Hpc Htimer Hclock _ _ Hbox].
    fold s in Hpc, Htimer, Hclock, Hbox.
    split; [done|]. split; [done|]. split; [done|].
    rewrite Hbox. by destruct (5 <=? n)%nat.
Qed.

Lemma loading_feedback_counts_ticks_witness :
  let s := run (on_time 1 2 true 7) (click sample_page) in
  let late := run [Elapse 2500; Fire 1; Fire 1] (click sample_page) in
  (pc s = AwaitFetch /\ clock (world s) = 7000 /\ timer s = 7)
  /\ timer late <= (clock (world late) - clock sample_page) / 1000.
Proof.
  destruct (loading_feedback_counts_ticks sample_page eq_refl
              ltac:(discriminate) ltac:(discriminate))
    as (_ & Hany & Hon).
  split.
  - destruct (Hon 7%nat true) as (Hpc & Hclock & Htimer & _).
    split; [exact Hpc|]. split; [exact Hclock | exact Htimer].
  - destruct (Hany [Elapse 2500; Fire 1; Fire 1]) as (fired & _ & _ & Hle & _).
    + vm_compute. discriminate.
    + exact Hle.
Defined.

(** C9: a questions text of commas and whitespace only is not empty, so
    the call goes through, and the request it sends carries an empty
    [questions] array. *)
Theorem blank_questions_are_still_sent (w : World) (evs : list Event) :
  documentUrlInput w <> [] ->
  questionInput w <> [] ->
  forallb comma_or_white_space (questionInput w) = true ->
  pc (click w) = AwaitFetch
  /\ alerts (log (world (click w))) = alerts (log w)
  /\ requests (log (world (run evs (click w))))
     = requests (log w)
       ++ [ mkRequest (lit "/hackrx/run") (lit "POST")
              [ (lit "Content-Type", lit "application/json");
                (lit "Authorization", lit "Bearer hackrx-secret-token");
                (lit "Accept", lit "application/json") ]
              (JSON_stringify
                 (JObject [ (lit "documents", JString (documentUrlInput w));
                            (lit "questions", JArray []) ])
                 0) ].
Proof.
  intros Hu Hq Hblank. rewrite run_requests, (click_valid w Hu Hq). fields.
  rewrite requests_app, alerts_app, app_nil_r. unfold the_request.
  by rewrite (questions_of_commas_and_white_space _ Hblank).
Qed.

Lemma blank_questions_are_still_sent_witness :
  pc (click blank_questions_page) = AwaitFetch
  /\ alerts (log (world (click blank_questions_page))) = []
  /\ requests (log (world (run [Elapse 1000; Fire 1] (click blank_questions_page))))
     = [ mkRequest (lit "/hackrx/run") (lit "POST")
           [ (lit "Content-Type", lit "application/json");
             (lit "Authorization", lit "Bearer hackrx-secret-token");
             (lit "Accept", lit "application/json") ]
           (JSON_stringify
              (JObject [ (lit "documents", JString (lit "https://example.com/policy.pdf"));
                         (lit "questions", JArray []) ])
              0) ].
Proof.
  apply (blank_questions_are_still_sent blank_questions_page [Elapse 1000; Fire 1]);
    [discriminate | discriminate | reflexivity].
Defined.

Lemma find_id_lookup (id : jsstring) (content : list Node) (i : nat) :
  find_id id content = Some i ->
  exists text, content !! i = Some (IdSpan id text).
Proof.
  revert i. induction content as [|n r IH]; intros i; [done|].
  destruct n as [html | id' text]; cbn [find_id].
  - destruct (find_id id r) as [j|]; [|done].
    intros [= <-]. by apply IH.
  - destruct (bool_decide (id' = id)) eqn:E.
    + intros [= <-]. apply bool_decide_eq_true in E as ->. by exists text.
    + destruct (find_id id r) as [j|]; [|done].
      intros [= <-]. by apply IH.
Qed.

(** C10: [updateTimer] looks the span up by its id and never throws, and
    neither does the tick. When the page has no element of that id,
    [updateTimer] changes nothing and the tick changes nothing on the page;
    when it has one, the text of that element, and only it, becomes the
    counter followed by "s". *)
Theorem updateTimer_is_guarded (s : Sys) :
  (exists s',
     updateTimer s = (Normal tt, s')
     /\ match find_id (lit "timerSpan") (responseBox (world s)) with
        | None => s' = s
        | Some i =>
            log (world s')
            = log (world s) ++ [SetTextContent i (decimal (timer s) ++ lit "s")]
            /\ responseBox (world s')
               = <[i := IdSpan (lit "timerSpan") (decimal (timer s) ++ lit "s")]>
                   (responseBox (world s))
            /\ responseBox (world s') !! i
               = Some (IdSpan (lit "timerSpan") (decimal (timer s) ++ lit "s"))
        end)
  /\ (exists s'',
        tick s = (Normal tt, s'')
        /\ timer s'' = timer s + 1
        /\ (find_id (lit "timerSpan") (responseBox (world s)) = None ->
            world s'' = world s)).
Proof.
  split.
  - rewrite updateTimer_result.
    destruct (find_id (lit "timerSpan") (responseBox (world s))) as [i|] eqn:E.
    + eexists. split; [reflexivity|].
      destruct (find_id_lookup _ _ _ E) as [text Hi].
      unfold with_world, add_effect, with_responseBox. fields. rewrite Hi.
      cbn [set_text]. split; [done|]. split; [done|].
      apply list_lookup_insert_eq. by eapply lookup_lt_Some.
    + by exists s.
  - unfold tick, get, set_timer, mbind, Js_bind.
    rewrite updateTimer_result. fields.
    destruct (find_id (lit "timerSpan") (responseBox (world s))) as [i|] eqn:E.
    + eexists. split; [reflexivity|]. split; [done|]. done.
    + eexists. split; [reflexivity|]. split; [done|]. done.
Qed.

(** * Further properties of the handler *)

(** ** What the events after the first stretch can do *)

Section Later.

Implicit Types (s : Sys) (w : World) (ev : Event).

Lemma later_effect_views (added : list Effect) :
  forallb later_effect added = true ->
  requests added = [] /\ alerts added = [] /\ uncaught added = []
  /\ timers_started added = [].
Proof.
  induction added as [|e added IH]; [done|].
  cbn [forallb]. intros [He Hadded]%andb_true_iff.
  destruct (IH Hadded) as (Hr & Ha & Hu & Ht).
  destruct e; try discriminate; cbn; by rewrite ?Hr, ?Ha, ?Hu, ?Ht.
Qed.

(** A timer callback only writes to the output container. *)
Lemma run_callback_writes cb s :
  exists added,
    log (world (run_task (run_callback cb) s)) = log (world s) ++ added
    /\ forallb later_effect added = true
    /\ logged added = [] /\ renders added = match cb with
                                             | TickCb => []
                                             | WaitingCb => [still_working_content (timer s)]
                                             end.
Proof.
  open_sys s. destruct cb; cbn [run_callback]; unfold tick, waiting; js_run;
    rewrite updateTimer_result; js_run.
  - destruct (find_id (lit "timerSpan") box); js_run.
    + by eexists [_].
    + exists []. by rewrite app_nil_r.
  - change (find_id (lit "timerSpan") (still_working_content n))
      with (Some 1%nat).
    js_run. eexists [_; _]. by rewrite <- app_assoc.
Qed.

Lemma rendered_log pre final s :
  log (world (rendered pre final s))
  = log (world s) ++ pre ++ [ClearTimeout (waitingTimeout s);
                              ClearInterval (timerInterval s);
                              SetInnerHTML final].
Proof. reflexivity. Qed.

(** What one event adds to the history. *)
Lemma step_log s ev :
  exists added,
    log (world (step ev s)) = log (world s) ++ added
    /\ forallb later_effect added = true.
Proof.
  assert (forall s0, log (world s0) = log (world s) ->
             exists added,
               log (world s0) = log (world s) ++ added
               /\ forallb later_effect added = true) as Hsame.
  { intros s0 ->. exists []. by rewrite app_nil_r. }
  assert (forall pre final,
             forallb later_effect pre = true ->
             exists added,
               log (world (rendered pre final s)) = log (world s) ++ added
               /\ forallb later_effect added = true) as Hrendered.
  { intros pre final Hpre. eexists. split; [apply rendered_log|].
    by rewrite forallb_app, Hpre. }
  destruct ev as [ms | h | [err | queryRes] | [err | text] | [err | data]];
    unfold step.
  - by apply Hsame.
  - destruct (timers (world s) !! h) as [t|]; [|by apply Hsame].
    destruct (due t <=? clock (world s)); [|by apply Hsame].
    destruct (run_callback_writes (callback t) s) as (added & Hlog & Hadded & _).
    exists added. split; [|done]. unfold with_world. fields.
    by destruct (rearm_frame h (world (run_task (run_callback (callback t)) s)))
      as (-> & _ & _).
  - destruct (pc s); try (by apply Hsame).
    rewrite after_fetch_rejected. by apply Hrendered.
  - destruct (pc s); try (by apply Hsame).
    rewrite after_fetch_fulfilled. by apply Hsame.
  - destruct (pc s); try (by apply Hsame).
    rewrite after_text_rejected. by apply Hrendered.
  - destruct (pc s); try (by apply Hsame).
    rewrite after_text_fulfilled. by apply Hrendered.
  - destruct (pc s); try (by apply Hsame).
    rewrite after_json_rejected. by apply Hrendered.
  - destruct (pc s); try (by apply Hsame).
    rewrite after_json_fulfilled. by apply Hrendered.
Qed.

Lemma run_log s evs :
  exists added,
    log (world (run evs s)) = log (world s) ++ added
    /\ forallb later_effect added = true.
Proof.
  revert s. induction evs as [|ev evs IH]; intros s.
  - exists []. by rewrite app_nil_r.
  - rewrite run_cons.
    destruct (step_log s ev) as (a1 & H1 & Ha1).
    destruct (IH (step ev s)) as (a2 & H2 & Ha2).
    exists (a1 ++ a2). rewrite H2, H1, <- app_assoc. split; [done|].
    by rewrite forallb_app, Ha1, Ha2.
Qed.

(** The first stretch, by the test of line 6. *)
Lemma click_log w :
  log (world (click w))
  = log w
    ++ if inputs_rejected w
       then [Alert (lit "Please enter a document URL and your questions.")]
       else [SetInnerHTML thinking_content;
             SetInterval (next_handle w) TickCb 1000;
             SetTimeout (next_handle w + 1) WaitingCb 5000;
             Fetch (the_request (documentUrlInput w)
                      (questions_of (questionInput w)))].
Proof.
  unfold inputs_rejected.
  destruct (documentUrlInput w) as [|u0 u] eqn:Hu.
  { rewrite click_invalid by by left. done. }
  destruct (questionInput w) as [|q0 q] eqn:Hq.
  { rewrite click_invalid by by right. done. }
  rewrite click_valid by by rewrite ?Hu, ?Hq. fields. by rewrite Hu, Hq.
Qed.

End Later.

(** X1: nothing the handler or its timer callbacks throw goes uncaught,
    whatever the inputs and whatever the timers and the network do. *)
Theorem nothing_goes_uncaught (w : World) (evs : list Event) :
  uncaught (log (world (run evs (click w)))) = uncaught (log w).
Proof.
  destruct (run_log (click w) evs) as (added & -> & Hadded).
  destruct (later_effect_views added Hadded) as (_ & _ & Hu & _).
  rewrite click_log. unfold uncaught in *. rewrite !omap_app, Hu.
  destruct (inputs_rejected w); cbn; by rewrite !app_nil_r.
Qed.

(** X2: the handler alerts exactly when an input is empty, once, and never
    at any later moment of the call. *)
Theorem alert_only_for_rejected_inputs (w : World) (evs : list Event) :
  alerts (log (world (run evs (click w))))
  = alerts (log w)
    ++ if inputs_rejected w
       then [lit "Please enter a document URL and your questions."]
       else [].
Proof.
  destruct (run_log (click w) evs) as (added & -> & Hadded).
  destruct (later_effect_views added Hadded) as (_ & Ha & _ & _).
  rewrite click_log, !alerts_app, Ha.
  destruct (inputs_rejected w); cbn; by rewrite !app_nil_r.
Qed.

(** X3: a call starts its two timers, the interval of one second and the
    timeout of five, when it accepts the inputs and none when it rejects
    them; nothing that happens later starts another. *)
Theorem no_third_timer (w : World) (evs : list Event) :
  timers_started (log (world (run evs (click w))))
  = timers_started (log w)
    ++ if inputs_rejected w
       then []
       else [SetInterval (next_handle w) TickCb 1000;
             SetTimeout (next_handle w + 1) WaitingCb 5000].
Proof.
  destruct (run_log (click w) evs) as (added & -> & Hadded).
  destruct (later_effect_views added Hadded) as (_ & _ & _ & Ht).
  rewrite click_log, !timers_started_app, Ht.
  destruct (inputs_rejected w); cbn; by rewrite !app_nil_r.
Qed.

(** ** The console, and what a rejected call leaves behind *)

Section Console.

Implicit Types (s : Sys) (w : World) (ev : Event).

Lemma returned_or_not (p : Pc) : p = Returned \/ p <> Returned.
Proof. destruct p; auto; right; discriminate. Qed.

Lemma click_pc w :
  pc (click w) = if inputs_rejected w then Returned else AwaitFetch.
Proof.
  unfold inputs_rejected.
  destruct (documentUrlInput w) as [|u0 u] eqn:Hu.
  { rewrite click_invalid by by left. done. }
  destruct (questionInput w) as [|q0 q] eqn:Hq.
  { rewrite click_invalid by by right. done. }
  rewrite click_valid by by rewrite ?Hu, ?Hq. done.
Qed.

Lemma rendered_logged pre final s :
  logged (log (world (rendered pre final s)))
  = logged (log (world s)) ++ logged pre.
Proof. rewrite rendered_log, !logged_app. cbn. by rewrite app_nil_r. Qed.

(** One event logs at most one error, and only by ending the call. *)
Lemma step_logged s ev :
  logged (log (world (step ev s))) = logged (log (world s))
  /\ (pc s = Returned -> pc (step ev s) = Returned)
  \/ pc s <> Returned /\ pc (step ev s) = Returned
     /\ exists err,
          logged (log (world (step ev s))) = logged (log (world s)) ++ [err].
Proof.
  destruct (timer_event ev) eqn:Hev.
  { destruct (step_timer_frame s ev Hev) as (Hpc & _ & Hl & _).
    left. split; [done | congruence]. }
  destruct ev as [ms | h | [err | queryRes] | [err | text] | [err | data]];
    try discriminate; unfold step; destruct (pc s) eqn:Hpc;
    try (left; split; [done | congruence]);
    rewrite ?after_fetch_rejected, ?after_fetch_fulfilled, ?after_text_rejected,
      ?after_text_fulfilled, ?after_json_rejected, ?after_json_fulfilled,
      ?rendered_logged.
  - right. split; [done|]. split; [done|]. by eexists.
  - left. split; [done | discriminate].
  - right. split; [done|]. split; [done|]. by eexists.
  - right. split; [done|]. split; [done|]. by eexists.
  - right. split; [done|]. split; [done|]. by eexists.
  - left. cbn. rewrite app_nil_r. split; [done | discriminate].
Qed.

(** Once a call has returned with no timer left, only the clock moves. *)
Lemma step_quiescent s ev :
  pc s = Returned ->
  timers (world s) = ∅ ->
  pc (step ev s) = Returned
  /\ timers (world (step ev s)) = ∅
  /\ responseBox (world (step ev s)) = responseBox (world s)
  /\ log (world (step ev s)) = log (world s).
Proof.
  intros Hpc Htm. destruct ev as [ms | h | o | o | o]; unfold step.
  - done.
  - by rewrite Htm, lookup_empty.
  - by rewrite Hpc.
  - by rewrite Hpc.
  - by rewrite Hpc.
Qed.

End Console.

(** X4: a call writes to the console at most once, and not before it
    returns: while it is in flight the console is as the call found it, and
    at any moment it holds at most one more error. *)
Theorem console_written_at_most_once (w : World) (evs : list Event) :
  (pc (run evs (click w)) <> Returned ->
   logged (log (world (run evs (click w)))) = logged (log w))
  /\ (logged (log (world (run evs (click w)))) = logged (log w)
      \/ exists err,
           logged (log (world (run evs (click w)))) = logged (log w) ++ [err]).
Proof.
  assert (forall s,
            (pc s <> Returned /\ logged (log (world s)) = logged (log w))
            \/ (pc s = Returned
                /\ (logged (log (world s)) = logged (log w)
                    \/ exists err,
                         logged (log (world s)) = logged (log w) ++ [err])) ->
            (pc (run evs s) <> Returned
             /\ logged (log (world (run evs s))) = logged (log w))
            \/ (pc (run evs s) = Returned
                /\ (logged (log (world (run evs s))) = logged (log w)
                    \/ exists err,
                         logged (log (world (run evs s)))
                         = logged (log w) ++ [err]))) as Hrun.
  { induction evs as [|ev evs IH]; intros s Hs; [done|].
    rewrite run_cons. apply IH.
    destruct (step_logged s ev) as [[Hl Hp] | (Hp & Hp' & err & Hl)].
    - destruct Hs as [[Hn HL] | [Hr HL]].
      + destruct (returned_or_not (pc (step ev s))) as [Hr' | Hn'].
        * right. split; [done|]. left. congruence.
        * left. split; [done | congruence].
      + right. split; [by apply Hp|]. by rewrite Hl.
    - destruct Hs as [[Hn HL] | [Hr HL]]; [|done].
      right. split; [done|]. right. exists err. by rewrite Hl, HL. }
  assert (logged (log (world (click w))) = logged (log w)) as Hclick.
  { rewrite click_log, logged_app.
    destruct (inputs_rejected w); cbn; by rewrite app_nil_r. }
  destruct (Hrun (click w)) as [[Hn HL] | [Hr HL]].
  { destruct (returned_or_not (pc (click w))); [right | left]; auto. }
  - split; [done | by left].
  - split; [done | exact HL].
Qed.

Lemma console_written_at_most_once_witness :
  logged (log (world (run [Elapse 1000; Fire 1; FetchSettled (inr (mkResponse 404))]
                        (click sample_page))))
  = logged (log sample_page).
Proof.
  apply (proj1 (console_written_at_most_once sample_page
                  [Elapse 1000; Fire 1; FetchSettled (inr (mkResponse 404))])).
  vm_compute. discriminate.
Defined.

(** X5: on a page with no timer running, a call rejected for an empty
    input leaves nothing behind: whatever happens afterwards, the output
    container stays as it was, no timer exists, and the alert remains the
    only effect. *)
Theorem rejected_call_stays_inert (w : World) (evs : list Event) :
  timers w = ∅ ->
  documentUrlInput w = [] \/ questionInput w = [] ->
  pc (run evs (click w)) = Returned
  /\ timers (world (run evs (click w))) = ∅
  /\ responseBox (world (run evs (click w))) = responseBox w
  /\ log (world (run evs (click w)))
     = log w ++ [Alert (lit "Please enter a document URL and your questions.")].
Proof.
  intros Htm Hin.
  assert (forall s, pc s = Returned -> timers (world s) = ∅ ->
            pc (run evs s) = Returned
            /\ timers (world (run evs s)) = ∅
            /\ responseBox (world (run evs s)) = responseBox (world s)
            /\ log (world (run evs s)) = log (world s)) as Hrun.
  { induction evs as [|ev evs IH]; intros s Hpc Ht; [done|].
    rewrite run_cons.
    destruct (step_quiescent s ev Hpc Ht) as (Hpc' & Ht' & <- & <-).
    by apply IH. }
  rewrite (click_invalid w Hin).
  by destruct (Hrun (mkSys
                 (add_effect
                    (Alert (lit "Please enter a document URL and your questions.")) w)
                 Returned 0 None None)) as (Hpc & Ht & -> & ->).
Qed.

Lemma rejected_call_stays_inert_witness :
  let evs := [Elapse 6000; Fire 1; Fire 2; FetchSettled (inr (mkResponse 200))] in
  pc (run evs (click empty_questions_page)) = Returned
  /\ timers (world (run evs (click empty_questions_page))) = ∅
  /\ responseBox (world (run evs (click empty_questions_page))) = [Html (lit "old")]
  /\ log (world (run evs (click empty_questions_page)))
     = [Alert (lit "Please enter a document URL and your questions.")].
Proof.
  intros evs.
  apply (rejected_call_stays_inert empty_questions_page evs);
    [reflexivity | by right].
Defined.

(** X6: when [fetch] itself fails with a [TypeError] whose message
    contains "Failed to fetch", however long that takes and whatever the
    timers did meanwhile, the call ends, the error is logged, and the
    output is the fixed connectivity message. *)
Theorem fetch_failure_renders_connect_error
    (w : World) (evs : list Event) (err : JsError) :
  documentUrlInput w <> [] ->
  questionInput w <> [] ->
  forallb timer_event evs = true ->
  instanceof_TypeError err = true ->
  includes (message err) (lit "Failed to fetch") = true ->
  let s := run (evs ++ [FetchSettled (inl err)]) (click w) in
  pc s = Returned
  /\ logged (log (world s)) = logged (log w) ++ [err]
  /\ innerHTML (responseBox (world s))
     = lit "<b style=" ++ dq ++ lit "color:red" ++ dq ++ lit ">" ++ cross_mark
       ++ lit " Error:</b> Could not connect to backend server.".
Proof.
  intros Hu Hq Hevs Hty Hinc s. subst s. rewrite run_app.
  destruct (run_timer_frame (click w) evs Hevs) as (Hpc & _ & Hl & _).
  rewrite (click_valid w Hu Hq) in Hpc at 2. rewrite (click_valid w Hu Hq) in Hl at 2.
  revert Hpc Hl. fields. rewrite logged_app, app_nil_r. intros Hpc Hl.
  change (run [FetchSettled (inl err)] ?s) with (step (FetchSettled (inl err)) s).
  unfold step. rewrite Hpc, after_fetch_rejected, rendered_logged, Hl.
  unfold rendered, final_error_content. fields. by rewrite Hty, Hinc.
Qed.

Lemma fetch_failure_renders_connect_error_witness :
  let err := mkError TypeError (lit "Failed to fetch") in
  let s := run ([Elapse 5000; Fire 1; Fire 2] ++ [FetchSettled (inl err)])
             (click sample_page) in
  pc s = Returned
  /\ logged (log (world s)) = [err]
  /\ innerHTML (responseBox (world s))
     = lit "<b style=" ++ dq ++ lit "color:red" ++ dq ++ lit ">" ++ cross_mark
       ++ lit " Error:</b> Could not connect to backend server.".
Proof.
  intros err.
  apply (fetch_failure_renders_connect_error sample_page
           [Elapse 5000; Fire 1; Fire 2] err);
    [discriminate | discriminate | reflexivity | reflexivity | reflexivity].
Defined.

(** X7: when the body of the response cannot be read, as JSON for a
    success status or as text otherwise, the call ends in the [catch]
    block with that error: it is logged, and the output is its message
    behind the error label, or the connectivity message if it is a
    [TypeError] that mentions "Failed to fetch". *)
Theorem body_failure_is_caught
    (w : World) (evs1 evs2 : list Event) (queryRes : Response) (err : JsError) :
  documentUrlInput w <> [] ->
  questionInput w <> [] ->
  forallb timer_event evs1 = true ->
  forallb timer_event evs2 = true ->
  let failure :=
    if ok queryRes then JsonSettled (inl err) else TextSettled (inl err) in
  let s := run (evs1 ++ FetchSettled (inr queryRes) :: evs2 ++ [failure])
             (click w) in
  pc s = Returned
  /\ logged (log (world s)) = logged (log w) ++ [err]
  /\ innerHTML (responseBox (world s))
     = lit "<b style=" ++ dq ++ lit "color:red" ++ dq ++ lit ">" ++ cross_mark
       ++ lit " Error:</b> "
       ++ if instanceof_TypeError err
             && includes (message err) (lit "Failed to fetch")
          then lit "Could not connect to backend server."
          else message err.
Proof.
  intros Hu Hq H1 H2 failure s. subst s failure.
  rewrite app_comm_cons, app_assoc, run_app.
  destruct (awaiting_body w evs1 evs2 queryRes Hu Hq H1 H2) as [Hpc Hlogged].
  change (run [?ev] ?s) with (step ev s).
  destruct (ok queryRes); unfold step; rewrite Hpc;
    rewrite ?after_json_rejected, ?after_text_rejected, rendered_logged, Hlogged;
    unfold rendered, final_error_content; fields;
    (destruct (instanceof_TypeError err
               && includes (message err) (lit "Failed to fetch"));
     [by rewrite connect_error_source | by rewrite error_source]).
Qed.

Lemma body_failure_is_caught_witness :
  let err := mkError SyntaxError (lit "Unexpected token < in JSON at position 0") in
  let s := run ([Elapse 1000; Fire 1]
                ++ FetchSettled (inr (mkResponse 200)) :: [Elapse 1000; Fire 1]
                ++ [JsonSettled (inl err)])
             (click sample_page) in
  pc s = Returned
  /\ logged (log (world s)) = [err]
  /\ innerHTML (responseBox (world s))
     = lit "<b style=" ++ dq ++ lit "color:red" ++ dq ++ lit ">" ++ cross_mark
       ++ lit " Error:</b> "
       ++ lit "Unexpected token < in JSON at position 0".
Proof.
  intros err.
  apply (body_failure_is_caught sample_page [Elapse 1000; Fire 1]
           [Elapse 1000; Fire 1] (mkResponse 200) err);
    [discriminate | discriminate | reflexivity | reflexivity].
Defined.

(** X8: the seconds reported on success have really elapsed: when the
    answer arrives, the number written in the "Answer loaded in" line,
    times a thousand, is at most the milliseconds since the call. *)
Theorem reported_seconds_have_elapsed
    (w : World) (evs : list Event) (data : Json) :
  timers w = ∅ ->
  documentUrlInput w <> [] ->
  questionInput w <> [] ->
  pc (run evs (click w)) = AwaitJson ->
  let s := step (JsonSettled (inr data)) (run evs (click w)) in
  responseBox (world s) = answer_content (timer s) data
  /\ clock w + 1000 * timer s <= clock (world s).
Proof.
  intros Htm Hu Hq Hpc s. subst s.
  destruct (reachable w evs Htm Hu Hq) as [Hin | Hco].
  - destruct Hin as [fired next_tick history _ _ _ _ _ _ _ Hel _ _ _ _ _ _ _].
    unfold step. rewrite Hpc, after_json_fulfilled. unfold rendered. fields.
    done.
  - destruct Hco as [? Hr]. congruence.
Qed.

Lemma reported_seconds_have_elapsed_witness :
  let evs := [Elapse 1500; Fire 1; Elapse 1200; Fire 1;
              FetchSettled (inr (mkResponse 200)); Elapse 900] in
  let s := step (JsonSettled (inr JNull)) (run evs (click sample_page)) in
  responseBox (world s) = answer_content (timer s) JNull
  /\ clock sample_page + 1000 * timer s <= clock (world s).
Proof.
  intros evs.
  apply (reported_seconds_have_elapsed sample_page evs JNull);
    [reflexivity | discriminate | discriminate | reflexivity].
Defined.

(** ** The phases of the output *)

Section Phases.

Implicit Types (s : Sys) (w : World) (ev : Event).

Lemma renders_app (l1 l2 : list Effect) :
  renders (l1 ++ l2) = renders l1 ++ renders l2.
Proof. apply omap_app. Qed.

(** A timer that fires either leaves the writes of whole contents as they
    are, or is the timeout, which then leaves the table and writes the
    "still working" markup. *)
Lemma fire_renders w s h :
  in_flight w s ->
  (renders (log (world (step (Fire h) s))) = renders (log (world s))
   /\ timers (world (step (Fire h) s)) !! (next_handle w + 1)
      = timers (world s) !! (next_handle w + 1))
  \/ (is_Some (timers (world s) !! (next_handle w + 1))
      /\ timers (world (step (Fire h) s)) !! (next_handle w + 1) = None
      /\ renders (log (world (step (Fire h) s)))
         = renders (log (world s)) ++ [still_working_content (timer s)]).
Proof.
  intros [fired next_tick history Hpc HI HT Htick Hwait Hothers Hbox Hel Hnext
            Hlate Hlog Hreq Hlogged Halerts Hstarted].
  unfold step.
  destruct (decide (h = next_handle w)) as [-> | Hne1].
  - rewrite Htick. fields.
    destruct (next_tick <=? clock (world s)); [|by left].
    cbn [run_callback]. rewrite (tick_loading s fired Hbox).
    unfold with_world, rearm, add_effect, with_responseBox, with_timers. fields.
    rewrite Htick. fields. left.
    rewrite renders_app, lookup_insert_ne by lia. cbn. by rewrite app_nil_r.
  - destruct (decide (h = next_handle w + 1)) as [-> | Hne2].
    + rewrite Hwait. destruct fired; [by left|]. fields.
      destruct (clock w + 5000 <=? clock (world s)); [|by left].
      cbn [run_callback]. rewrite waiting_result.
      unfold with_world, rearm, add_effect, with_responseBox, with_timers. fields.
      rewrite Hwait. fields. right.
      split; [by eexists|]. split; [apply lookup_delete_eq|].
      rewrite !renders_app. cbn. by rewrite app_nil_r.
    + rewrite (Hothers h Hne1 Hne2). by left.
Qed.

(** A promise that settles either writes nothing, or ends the call with the
    write of the final output. *)
Lemma settle_renders s ev :
  timer_event ev = false ->
  (log (world (step ev s)) = log (world s)
   /\ timers (world (step ev s)) = timers (world s)
   /\ (pc (step ev s) = Returned -> pc s = Returned))
  \/ (pc s <> Returned
      /\ pc (step ev s) = Returned
      /\ renders (log (world (step ev s)))
         = renders (log (world s)) ++ [responseBox (world (step ev s))]).
Proof.
  intros Hev.
  destruct ev as [ms | h | [err | queryRes] | [err | text] | [err | data]];
    try discriminate; unfold step; destruct (pc s) eqn:Hpc;
    try (left; split; [done|]; split; [done|]; congruence);
    rewrite ?after_fetch_rejected, ?after_fetch_fulfilled, ?after_text_rejected,
      ?after_text_fulfilled, ?after_json_rejected, ?after_json_fulfilled;
    try (right; split; [done|]; split; [done|];
         rewrite rendered_log, !renders_app; cbn; by rewrite ?app_nil_r).
  left. fields. split; [done|]. split; [done|]. by destruct (ok queryRes).
Qed.

(** The clock never runs backwards. *)
Lemma step_clock_mono s ev : clock (world s) <= clock (world (step ev s)).
Proof.
  destruct ev as [ms | h | [err | queryRes] | [err | text] | [err | data]];
    unfold step.
  - unfold with_world, with_clock. fields. lia.
  - destruct (timers (world s) !! h) as [t|]; [|done].
    destruct (due t <=? clock (world s)); [|done].
    destruct (run_callback_frame (callback t) s) as (_ & _ & Hclock & _).
    unfold with_world. fields.
    destruct (rearm_frame h (world (run_task (run_callback (callback t)) s)))
      as (_ & -> & _).
    by rewrite Hclock.
  - destruct (pc s); try done. by rewrite after_fetch_rejected.
  - destruct (pc s); try done. by rewrite after_fetch_fulfilled.
  - destruct (pc s); try done. by rewrite after_text_rejected.
  - destruct (pc s); try done. by rewrite after_text_fulfilled.
  - destruct (pc s); try done. by rewrite after_json_rejected.
  - destruct (pc s); try done. by rewrite after_json_fulfilled.
Qed.

(** In flight, the timeout is gone from the table only once five seconds
    have passed. *)
Lemma in_flight_timeout_gone w s :
  in_flight w s ->
  timers (world s) !! (next_handle w + 1) = None ->
  clock w + 5000 <= clock (world s).
Proof.
  intros [fired next_tick history _ _ _ _ Hwait _ _ _ _ Hlate _ _ _ _ _] Hnone.
  apply Hlate. destruct fired; [done|]. congruence.
Qed.

(** The whole writes of a call, at any moment: the "thinking" markup, then
    the "still working" markup at most once and not before five seconds have
    passed, then the final output once the call has returned. *)
Lemma phases w evs :
  timers w = ∅ ->
  documentUrlInput w <> [] ->
  questionInput w <> [] ->
  exists still,
    (still = [] \/ exists n, still = [still_working_content n])
    /\ renders (log (world (run evs (click w))))
       = renders (log w) ++ [thinking_content] ++ still
         ++ match pc (run evs (click w)) with
            | Returned => [responseBox (world (run evs (click w)))]
            | _ => []
            end
    /\ (still <> [] -> clock w + 5000 <= clock (world (run evs (click w)))).
Proof.
  intros Htm Hu Hq.
  set (shape := fun still : list (list Node) =>
                  still = [] \/ exists n, still = [still_working_content n]).
  set (flying := fun s =>
         in_flight w s
         /\ exists still,
              shape still
              /\ renders (log (world s))
                 = renders (log w) ++ [thinking_content] ++ still
              /\ (still <> [] ->
                  timers (world s) !! (next_handle w + 1) = None)).
  set (landed := fun s =>
         completed w s
         /\ exists still,
              shape still
              /\ renders (log (world s))
                 = renders (log w) ++ [thinking_content] ++ still
                   ++ [responseBox (world s)]
              /\ (still <> [] -> clock w + 5000 <= clock (world s))).
  assert (forall s, flying s \/ landed s ->
            flying (run evs s) \/ landed (run evs s)) as Hrun.
  { induction evs as [|ev evs IH]; intros s Hs; [done|].
    rewrite run_cons. apply IH. clear IH.
    pose proof (step_clock_mono s ev) as Hmono.
    destruct Hs as [[Hin (still & Hshape & Hrend & Hgone)]
                   | [Hco (still & Hshape & Hrend & Hlate)]].
    - destruct (timer_event ev) eqn:Hev.
      + destruct (step_timer_event w s ev Hin Hev) as [Hin' _].
        left. split; [done|].
        destruct ev as [ms | h | | | ]; try discriminate.
        * by exists still.
        * destruct (fire_renders w s h Hin)
            as [[Hr Ht] | (Hsome & Hnone & Hr)].
          -- exists still. rewrite Hr, Ht. done.
          -- assert (still = []) as ->.
             { destruct still as [|c still]; [done|].
               rewrite Hgone in Hsome by done. by destruct Hsome. }
             exists [still_working_content (timer s)].
             split; [right; by eexists|].
             rewrite Hr, Hrend, app_nil_r. by rewrite <- !app_assoc.
      + destruct (settle_renders s ev Hev)
          as [(Hlog & Ht & Hp) | (Hn & Hr & Hrend')].
        * destruct (step_in_flight w s ev Hin) as [Hin' | Hco'].
          -- left. split; [done|]. exists still. by rewrite Hlog, Ht.
          -- exfalso. destruct Hco' as [? Hret]. specialize (Hp Hret).
             destruct Hin as [? ? ? [H | [H | H]]]; congruence.
        * destruct (step_in_flight w s ev Hin) as [Hin' | Hco'].
          -- exfalso. destruct Hin' as [? ? ? [H | [H | H]]]; congruence.
          -- right. split; [done|]. exists still. split; [done|].
             split; [rewrite Hrend', Hrend; by rewrite <- !app_assoc|].
             intros Hne.
             pose proof (in_flight_timeout_gone w s Hin (Hgone Hne)). lia.
    - destruct (step_completed w s ev Hco) as (Hco' & Hbox & Hlog).
      right. split; [done|]. exists still. rewrite Hlog, Hbox.
      split; [done|]. split; [done|]. intros Hne. specialize (Hlate Hne). lia. }
  destruct (click_in_flight w Htm Hu Hq) as [Hin Hpc].
  destruct (Hrun (click w)) as [[Hin' (still & Hshape & Hrend & Hgone)]
                               | [Hco (still & Hshape & Hrend & Hlate)]].
  - left. split; [done|]. exists []. split; [by left|]. split; [|done].
    rewrite (click_valid w Hu Hq). fields. by rewrite renders_app.
  - exists still. split; [done|]. rewrite Hrend. split.
    + destruct Hin' as [? ? ? [-> | [-> | ->]]]; by rewrite app_nil_r.
    + intros Hne. apply (in_flight_timeout_gone w _ Hin' (Hgone Hne)).
  - exists still. split; [done|]. rewrite Hrend.
    destruct Hco as [? ->]. done.
Qed.

(** The two callbacks, run one after the other on any state. *)
Lemma tick_after_waiting s :
  run_task tick (run_task waiting s)
  = mkSys
      (add_effect (SetTextContent 1 (decimal (timer s + 1) ++ lit "s"))
         (add_effect (SetTextContent 1 (decimal (timer s) ++ lit "s"))
            (add_effect (SetInnerHTML (still_working_content (timer s)))
               (with_responseBox
                  (fun _ => still_working_content (timer s + 1)) (world s)))))
      (pc s) (timer s + 1) (timerInterval s) (waitingTimeout s).
Proof.
  rewrite waiting_result.
  rewrite (tick_loading _ true) by done.
  unfold add_effect, with_responseBox. fields. done.
Qed.

Lemma waiting_after_tick s :
  responseBox (world (run_task waiting (run_task tick s)))
  = still_working_content (timer s + 1)
  /\ timer (run_task waiting (run_task tick s)) = timer s + 1.
Proof.
  rewrite waiting_result. fields.
  assert (timer (run_task tick s) = timer s + 1) as ->; [|done].
  unfold run_task, tick, get, set_timer, mbind, Js_bind.
  rewrite updateTimer_result. fields.
  by destruct (find_id (lit "timerSpan") (responseBox (world s))).
Qed.

End Phases.

(** X9: the output container is written whole at most three times in a
    call, in this order: the "thinking" markup when the call starts, the
    "still working" markup at most once, and the final output when the
    call returns, after which it is never written again. *)
Theorem output_written_in_phases (w : World) (evs : list Event) :
  timers w = ∅ ->
  documentUrlInput w <> [] ->
  questionInput w <> [] ->
  exists still,
    (still = [] \/ exists n, still = [still_working_content n])
    /\ renders (log (world (run evs (click w))))
       = renders (log w) ++ [thinking_content] ++ still
         ++ match pc (run evs (click w)) with
            | Returned => [responseBox (world (run evs (click w)))]
            | _ => []
            end.
Proof.
  intros Htm Hu Hq.
  destruct (phases w evs Htm Hu Hq) as (still & Hshape & Hrend & _).
  by exists still.
Qed.

Lemma output_written_in_phases_witness :
  let evs := [Elapse 5000; Fire 1; Fire 2; Fire 2;
              FetchSettled (inr (mkResponse 200)); Elapse 1000; Fire 1;
              JsonSettled (inr JNull); Fire 1; Fire 2] in
  exists still,
    (still = [] \/ exists n, still = [still_working_content n])
    /\ renders (log (world (run evs (click sample_page))))
       = renders (log sample_page) ++ [thinking_content] ++ still
         ++ match pc (run evs (click sample_page)) with
            | Returned => [responseBox (world (run evs (click sample_page)))]
            | _ => []
            end.
Proof.
  intros evs.
  apply (output_written_in_phases sample_page evs);
    [reflexivity | discriminate | discriminate].
Defined.

(** ** The questions that are sent *)

Section Questions.

Implicit Types (s t p q a b : jsstring) (c : N).

Lemma comma_pieces_from_app cur a b :
  comma_pieces_from cur (a ++ comma :: b)
  = comma_pieces_from cur a ++ comma_pieces_from [] b.
Proof.
  revert cur. induction a as [|c a IH]; intros cur.
  - cbn [app comma_pieces_from]. by rewrite N.eqb_refl.
  - cbn [app comma_pieces_from].
    destruct (c =? comma); [by rewrite IH | apply IH].
Qed.

Lemma comma_pieces_from_single cur q :
  forallb (fun c => negb (c =? comma)) q = true ->
  comma_pieces_from cur q = [rev cur ++ q].
Proof.
  revert cur. induction q as [|c q IH]; intros cur Hq.
  - cbn. by rewrite app_nil_r.
  - cbn [forallb] in Hq. apply andb_true_iff in Hq as [Hc Hq].
    cbn [comma_pieces_from]. destruct (c =? comma); [done|].
    rewrite IH by done. cbn [rev]. by rewrite <- app_assoc.
Qed.

Lemma clean_question_parts q :
  clean_question q = true ->
  q <> []
  /\ forallb (fun c => negb (c =? comma)) q = true
  /\ is_white_space (hd 0 q) = false
  /\ is_white_space (List.last q 0) = false.
Proof.
  unfold clean_question.
  intros [[[H1 H2]%andb_true_iff H3]%andb_true_iff H4]%andb_true_iff.
  apply negb_true_iff in H3, H4. repeat split; try done. by destruct q.
Qed.

Lemma strip_clean q : clean_question q = true -> strip q = q.
Proof.
  intros (Hne & _ & Hhd & Hlast)%clean_question_parts. unfold strip.
  assert (drop_white_space q = q) as ->.
  { destruct q as [|c t]; [done|]. cbn in *. by rewrite Hhd. }
  rewrite (app_removelast_last 0 Hne) at 1.
  rewrite rev_app_distr. cbn [rev app drop_white_space]. rewrite Hlast.
  change (List.last q 0 :: rev (removelast q))
    with (rev [List.last q 0] ++ rev (removelast q)).
  rewrite <- rev_app_distr, rev_involutive.
  by rewrite <- (app_removelast_last 0 Hne).
Qed.

Lemma strip_is_clean p :
  forallb (fun c => negb (c =? comma)) p = true ->
  strip p <> [] ->
  clean_question (strip p) = true.
Proof.
  intros Hp Hne.
  destruct (strip_spec p) as (l & r & Hsplit & _ & _ & Hhd & Hlast).
  unfold clean_question. rewrite !andb_true_iff, !negb_true_iff.
  repeat split.
  - by destruct (strip p).
  - rewrite Hsplit, !forallb_app in Hp.
    by apply andb_true_iff in Hp as [_ [Hp _]%andb_true_iff].
  - destruct (strip p) as [|c t] eqn:E; [done|]. by apply (Hhd c t).
  - apply (Hlast _ (removelast (strip p))). by apply app_removelast_last.
Qed.

Lemma questions_of_single q : clean_question q = true -> questions_of q = [q].
Proof.
  intros Hq. pose proof (clean_question_parts q Hq) as (Hne & Hnc & _ & _).
  rewrite questions_of_spec. unfold comma_split_trim_filter, comma_pieces.
  rewrite (comma_pieces_from_single [] q Hnc). cbn [rev app map List.filter].
  rewrite (strip_clean q Hq). by destruct q.
Qed.

End Questions.

(** X10: every question that is sent is clean: not empty, free of commas,
    and with no whitespace at its start or at its end. *)
Theorem questions_sent_are_clean (questionsText : jsstring) :
  Forall (fun q => clean_question q = true) (questions_of questionsText).
Proof.
  rewrite questions_of_spec. unfold comma_split_trim_filter.
  pose proof (comma_pieces_no_comma questionsText) as Hpieces.
  induction Hpieces as [|p ps Hp _ IH]; [constructor|].
  cbn [map List.filter].
  destruct (is_empty_string (strip p)) eqn:E; cbn [negb]; [done|].
  constructor; [|done]. apply strip_is_clean; [done|].
  intros Hnil. by rewrite Hnil in E.
Qed.

(** X11: joining two texts with a comma concatenates their questions. *)
Theorem questions_of_comma_joined (a b : jsstring) :
  questions_of (a ++ lit "," ++ b) = questions_of a ++ questions_of b.
Proof.
  rewrite !questions_of_spec. unfold comma_split_trim_filter, comma_pieces.
  change (a ++ lit "," ++ b) with (a ++ comma :: b).
  by rewrite comma_pieces_from_app, map_app, List.filter_app.
Qed.

(** X12: clean questions survive the round trip: written one after the
    other with commas between them, they are read back as they were, in the
    same order and number. *)
Theorem clean_questions_round_trip (questions : list jsstring) :
  Forall (fun q => clean_question q = true) questions ->
  questions_of (join (lit ",") questions) = questions.
Proof.
  induction 1 as [|q qs Hq Hqs IH]; [done|].
  destruct qs as [|q' qs].
  - cbn [join]. by apply questions_of_single.
  - change (join (lit ",") (q :: q' :: qs))
      with (q ++ lit "," ++ join (lit ",") (q' :: qs)).
    rewrite !questions_of_spec. unfold comma_split_trim_filter, comma_pieces.
    change (q ++ lit "," ++ join (lit ",") (q' :: qs))
      with (q ++ comma :: join (lit ",") (q' :: qs)).
    rewrite comma_pieces_from_app, map_app, List.filter_app.
    fold (comma_pieces q) (comma_pieces (join (lit ",") (q' :: qs))).
    fold (comma_split_trim_filter q)
      (comma_split_trim_filter (join (lit ",") (q' :: qs))).
    by rewrite <- !questions_of_spec, IH, (questions_of_single q Hq).
Qed.

Lemma clean_questions_round_trip_witness :
  questions_of (join (lit ",") [lit "What is covered?"; lit "b"; lit "b"])
  = [lit "What is covered?"; lit "b"; lit "b"].
Proof.
  apply (clean_questions_round_trip [lit "What is covered?"; lit "b"; lit "b"]).
  repeat constructor.
Defined.

(** ** The text of the request body *)

Section Body.

Implicit Types (s : jsstring) (c d : N).

Lemma hex_digit_printable d : printable (hex_digit d) = true.
Proof.
  unfold printable, hex_digit. destruct (d <? 10); apply N.leb_le; lia.
Qed.

Lemma quote_unit_printable c : forallb printable (quote_unit c) = true.
Proof.
  unfold quote_unit. repeat case_match; try done.
  - cbn. by rewrite !hex_digit_printable.
  - cbn. rewrite andb_true_r. unfold printable.
    match goal with H : _ || _ || _ = false |- _ =>
      apply orb_false_iff in H as [[H _]%orb_false_iff _] end.
    apply N.leb_le. by apply N.ltb_ge.
Qed.

Lemma leading_surrogate_printable c :
  is_leading_surrogate c = true -> printable c = true.
Proof.
  unfold is_leading_surrogate, printable.
  intros [H _]%andb_true_iff. apply N.leb_le in H. apply N.leb_le. lia.
Qed.

Lemma trailing_surrogate_printable c :
  is_trailing_surrogate c = true -> printable c = true.
Proof.
  unfold is_trailing_surrogate, printable.
  intros [H _]%andb_true_iff. apply N.leb_le in H. apply N.leb_le. lia.
Qed.

Lemma quote_units_printable s : forallb printable (quote_units s) = true.
Proof.
  enough (forallb printable (quote_units s) = true
          /\ forall c, forallb printable (quote_units (c :: s)) = true)
    by tauto.
  induction s as [|d r [IH1 IH2]].
  - split; [done|]. intros c. apply quote_unit_printable.
  - split; [apply IH2|]. intros c. cbn [quote_units].
    destruct (is_leading_surrogate c && is_trailing_surrogate d) eqn:E.
    + apply andb_true_iff in E as [Hc Hd]. cbn [forallb].
      rewrite (leading_surrogate_printable c Hc),
        (trailing_surrogate_printable d Hd).
      destruct r; [done | apply IH1].
    + rewrite forallb_app, quote_unit_printable. apply IH2.
Qed.

Lemma QuoteJSONString_printable s :
  forallb printable (QuoteJSONString s) = true.
Proof.
  unfold QuoteJSONString. by rewrite !forallb_app, quote_units_printable.
Qed.

Lemma join_printable sep (parts : list jsstring) :
  forallb printable sep = true ->
  Forall (fun p => forallb printable p = true) parts ->
  forallb printable (join sep parts) = true.
Proof.
  intros Hsep. induction 1 as [|p ps Hp Hps IH]; [done|].
  destruct ps as [|p' ps]; [done|].
  change (join sep (p :: p' :: ps)) with (p ++ sep ++ join sep (p' :: ps)).
  by rewrite !forallb_app, Hp, Hsep, IH.
Qed.

(** The body, spelled out. *)
Lemma request_body_text (documentUrl : jsstring) (questions : list jsstring) :
  body (the_request documentUrl questions)
  = lit "{" ++ QuoteJSONString (lit "documents") ++ lit ":"
    ++ QuoteJSONString documentUrl ++ lit ","
    ++ QuoteJSONString (lit "questions") ++ lit ":"
    ++ match questions with
       | [] => lit "[]"
       | _ :: _ =>
           lit "[" ++ join (lit ",") (map QuoteJSONString questions) ++ lit "]"
       end
    ++ lit "}".
Proof.
  unfold the_request, JSON_stringify. cbn [body].
  change (repeat 32 (Nat.min 0 10)) with (@nil N).
  cbn [SerializeJSONProperty map fst snd app bracketed join].
  rewrite List.map_map. cbn [SerializeJSONProperty].
  destruct questions as [|q qs]; cbn [map bracketed];
    rewrite <- ?app_assoc; reflexivity.
Qed.

End Body.

(** X13: whatever is typed into the two fields, no code unit below U+0020
    occurs in the body of the request. (Code units from U+007F on, U+0085,
    U+2028 and U+2029 among them, are not escaped and may occur.) *)
Theorem request_body_is_printable
    (documentUrl : jsstring) (questions : list jsstring) :
  forallb printable (body (the_request documentUrl questions)) = true.
Proof.
  rewrite request_body_text.
  rewrite !forallb_app, !QuoteJSONString_printable.
  destruct questions as [|q qs]; [done|].
  rewrite !forallb_app, join_printable; [done | done |].
  apply List.Forall_forall. intros p [q' [<- _]]%in_map_iff.
  apply QuoteJSONString_printable.
Qed.

(** X14: a call that is less than five seconds old has not shown the "still
    working" markup: up to then the only whole writes are the "thinking"
    markup and, if the call has returned, the final output. *)
Theorem no_still_working_before_five_seconds (w : World) (evs : list Event) :
  timers w = ∅ ->
  documentUrlInput w <> [] ->
  questionInput w <> [] ->
  clock (world (run evs (click w))) < clock w + 5000 ->
  renders (log (world (run evs (click w))))
  = renders (log w) ++ [thinking_content]
    ++ match pc (run evs (click w)) with
       | Returned => [responseBox (world (run evs (click w)))]
       | _ => []
       end.
Proof.
  intros Htm Hu Hq Hclock.
  destruct (phases w evs Htm Hu Hq) as (still & Hshape & Hrend & Hlate).
  destruct still as [|c still]; [done|].
  assert (clock w + 5000 <= clock (world (run evs (click w)))) by by apply Hlate.
  lia.
Qed.

Lemma no_still_working_before_five_seconds_witness :
  let evs := [Elapse 1000; Fire 1; Elapse 3999; Fire 2; Fire 1;
              FetchSettled (inr (mkResponse 200)); JsonSettled (inr JNull)] in
  renders (log (world (run evs (click sample_page))))
  = renders (log sample_page) ++ [thinking_content]
    ++ match pc (run evs (click sample_page)) with
       | Returned => [responseBox (world (run evs (click sample_page)))]
       | _ => []
       end.
Proof.
  intros evs.
  apply (no_still_working_before_five_seconds sample_page evs);
    [reflexivity | discriminate | discriminate | reflexivity].
Defined.

(** X15: when the interval and the timeout are due together, the order in
    which the browser runs their callbacks does not show: either way the
    counter has advanced by one and the output container holds the "still
    working" markup with the span reading the new count. *)
Theorem callbacks_commute (s : Sys) :
  let tick_last := run_task tick (run_task waiting s) in
  let tick_first := run_task waiting (run_task tick s) in
  responseBox (world tick_last) = still_working_content (timer s + 1)
  /\ responseBox (world tick_first) = still_working_content (timer s + 1)
  /\ timer tick_last = timer s + 1
  /\ timer tick_first = timer s + 1.
Proof.
  cbn zeta. rewrite tick_after_waiting.
  destruct (waiting_after_tick s) as [-> ->]. done.
Qed.
